(** * omnipos-customer-service: the customer domain core

    A shallow embedding of the Go sources
      - internal/model (the [Customer] record),
      - internal/customer/repository (the [Repository] port and its
        PostgreSQL implementation [pgRepository]),
      - internal/customer/usecase (the domain service),
      - internal/customer/handler (the two RPC entry points that matter
        for the properties below),
      - internal/customer/listener (the Kafka consumer's [processMessage]),
    followed by the properties of the specification.

    Conventions.
      - A Go function returning [(T, error)] is a computation
        [M S T = S -> result T * S] over the state [S] it runs against.
      - A Go interface is a record of such computations; the code that
        depends on an interface is written in a [Section] over it.
      - A method that receives a [*model.Customer] returns the pointee as
        it is after the call.
      - Logging has no influence on results and is left out.
      - The store is a table of rows on which the SQL statements of the
        repository act; a statement may also fail because the connection
        does, in which case it has no effect on the table. *)

From Stdlib Require Import ZArith String Ascii Bool Lia List.
From Stdlib Require Import Sorting.Sorted Sorting.Permutation.
From Stdlib Require Import Floats.SpecFloat.
Import ListNotations.

Local Open Scope Z_scope.

(** ** Machine integers *)

(** Two's complement wrap-around of a [bits]-wide signed integer. *)
Definition wrap (bits z : Z) : Z :=
  (z + 2 ^ (bits - 1)) mod 2 ^ bits - 2 ^ (bits - 1).

Definition MaxInt32 : Z := 2147483647.
Definition MinInt32 : Z := -2147483648.

Definition in_int32 (z : Z) : bool := (MinInt32 <=? z) && (z <=? MaxInt32).

(** ** Errors and the error monad *)

(** The error values the core produces or forwards: [errors.New(msg)], a
    PostgreSQL error carrying its SQLSTATE, and a failure of the
    connection to the store. *)
Inductive error : Type :=
| errors_New (msg : string)
| pg_Error (sqlstate : string)
| driver_ErrBadConn.

Inductive result (A : Type) : Type :=
| Ok (a : A)
| Err (e : error).
Arguments Ok {A} a.
Arguments Err {A} e.

Definition M (S A : Type) : Type := S -> result A * S.

Definition ret {S A : Type} (a : A) : M S A := fun s => (Ok a, s).

Definition bind {S A B : Type} (c : M S A) (k : A -> M S B) : M S B :=
  fun s => match c s with
           | (Ok a, s') => k a s'
           | (Err e, s') => (Err e, s')
           end.

Definition fail {S A : Type} (e : error) : M S A := fun s => (Err e, s).

(** An effect that cannot fail, such as reading the clock. *)
Definition lift {S A : Type} (f : S -> A * S) : M S A :=
  fun s => let (a, s') := f s in (Ok a, s').

Notation "x <- c ;; k" := (bind c (fun x => k))
  (at level 61, c at next level, right associativity).

(** ** github.com/google/uuid *)

Module uuid.

(** [type UUID [16]byte]. *)
Definition UUID : Type := list Z.

Definition Nil : UUID := repeat 0 16%nat.

Definition eq_dec (a b : UUID) : {a = b} + {a <> b} := list_eq_dec Z.eq_dec a b.

Definition eqb (a b : UUID) : bool := if eq_dec a b then true else false.

Definition code (c : ascii) : Z := Z.of_N (N_of_ascii c).

(** [xvalues]: the value of a hexadecimal digit, 255 for any other byte. *)
Definition xvalue (c : ascii) : Z :=
  let n := code c in
  if (48 <=? n) && (n <=? 57) then n - 48
  else if (65 <=? n) && (n <=? 70) then n - 55
  else if (97 <=? n) && (n <=? 102) then n - 87
  else 255.

Definition xtob (x1 x2 : ascii) : option Z :=
  let b1 := xvalue x1 in
  let b2 := xvalue x2 in
  if (b1 =? 255) || (b2 =? 255) then None
  else Some (Z.lor (Z.shiftl b1 4) b2).

Fixpoint xtobs (s : list ascii) (offsets : list nat) : option (list Z) :=
  match offsets with
  | [] => Some []
  | x :: rest =>
      match xtob (nth x s zero) (nth (S x) s zero) with
      | Some v => option_map (cons v) (xtobs s rest)
      | None => None
      end
  end.

Definition is_dash (s : list ascii) (i : nat) : bool :=
  (code (nth i s zero) =? 45).

Definition hyphenated (s : list ascii) : option UUID :=
  if is_dash s 8 && is_dash s 13 && is_dash s 18 && is_dash s 23
  then xtobs s [0; 2; 4; 6; 9; 11; 14; 16; 19; 21; 24; 26; 28; 30; 32; 34]%nat
  else None.

Definition lower (c : ascii) : ascii :=
  let n := code c in
  if (65 <=? n) && (n <=? 90) then ascii_of_N (Z.to_N (n + 32)) else c.

Definition EqualFold (a b : list ascii) : bool :=
  if list_eq_dec ascii_dec (map lower a) (map lower b) then true else false.

(** [uuid.Parse]: the four accepted spellings, by length. *)
Definition Parse (str : string) : option UUID :=
  let s := list_ascii_of_string str in
  let n := length s in
  if (n =? 36)%nat then hyphenated s
  else if (n =? 45)%nat then
    if EqualFold (firstn 9 s) (list_ascii_of_string "urn:uuid:")
    then hyphenated (skipn 9 s) else None
  else if (n =? 38)%nat then hyphenated (skipn 1 s)
  else if (n =? 32)%nat then
    xtobs s [0; 2; 4; 6; 8; 10; 12; 14; 16; 18; 20; 22; 24; 26; 28; 30]%nat
  else None.

Definition hexdigit (v : Z) : ascii :=
  ascii_of_N (Z.to_N (if v <? 10 then 48 + v else 87 + v)).

Definition hex (b : Z) : list ascii :=
  [hexdigit (Z.shiftr b 4); hexdigit (Z.land b 15)].

Definition dash : ascii := ascii_of_N 45.

(** [UUID.String]: xxxxxxxx-xxxx-xxxx-xxxx-xxxxxxxxxxxx. *)
Definition String (u : UUID) : string :=
  let h := map hex u in
  string_of_list_ascii
    (concat (firstn 4 h) ++ dash :: concat (firstn 2 (skipn 4 h))
     ++ dash :: concat (firstn 2 (skipn 6 h))
     ++ dash :: concat (firstn 2 (skipn 8 h))
     ++ dash :: concat (skipn 10 h)).

(** [uuid.New] on the 16 bytes read from the random source: version 4,
    variant 10. *)
Definition set_v4 (b : list Z) : UUID :=
  map (fun ib : nat * Z =>
         let (i, x) := ib in
         if (i =? 6)%nat then Z.lor (Z.land x 15) 64
         else if (i =? 8)%nat then Z.lor (Z.land x 63) 128
         else x)
      (combine (seq 0 16) b).

End uuid.

(** ** internal/model *)

Module model.

Record Customer : Type := {
  ID : uuid.UUID;
  MerchantID : uuid.UUID;
  Name : string;
  Phone : string;
  Email : string;
  Address : string;
  LoyaltyPoints : Z;          (* int32 *)
  CreatedAt : Z;              (* time.Time, as an instant *)
  UpdatedAt : Z
}.

End model.
Import model.

(** ** The SQL the repository relies on

    The store is PostgreSQL; the statements of the repository are read
    with its semantics on the table of the migration
    (id UUID PRIMARY KEY, name VARCHAR(255), phone VARCHAR(20),
    email VARCHAR(255), address TEXT, loyalty_points INTEGER,
    UNIQUE(merchant_id, phone)). Text is taken to be ASCII. *)

Module sql.

Definition unique_violation : string := "23505".
Definition string_data_right_truncation : string := "22001".
Definition numeric_value_out_of_range : string := "22003".
Definition invalid_row_count_in_limit_clause : string := "2201W".
Definition invalid_row_count_in_result_offset_clause : string := "2201X".

Definition is_space (c : ascii) : bool := (uuid.code c =? 32).

(** Storing into VARCHAR(n): a longer value is refused unless the excess
    is all spaces, which are cut off. *)
Definition varchar (n : nat) (s : string) : option string :=
  let l := list_ascii_of_string s in
  if (length l <=? n)%nat then Some s
  else if forallb is_space (skipn n l)
       then Some (string_of_list_ascii (firstn n l))
       else None.

Definition percent : ascii := ascii_of_N 37.
Definition underscore : ascii := ascii_of_N 95.
Definition backslash : ascii := ascii_of_N 92.

Definition is_char (x c : ascii) : bool := (uuid.code x =? uuid.code c).

(** [text LIKE pattern]: [%] stands for any run of characters, [_] for
    any one character, a backslash takes the next character literally.
    A pattern that ends in a lone backslash is an error in PostgreSQL and
    matches nothing here; the patterns of [List] end in [%]. *)
Fixpoint like (p : list ascii) : list ascii -> bool :=
  match p with
  | [] => fun t => match t with [] => true | _ :: _ => false end
  | c :: p' =>
      if is_char c percent then
        fix star (t : list ascii) : bool :=
          like p' t || match t with [] => false | _ :: t' => star t' end
      else if is_char c underscore then
        fun t => match t with [] => false | _ :: t' => like p' t' end
      else if is_char c backslash then
        match p' with
        | [] => fun _ => false
        | d :: p'' =>
            fun t => match t with
                     | [] => false
                     | x :: t' => is_char x d && like p'' t'
                     end
        end
      else
        fun t => match t with
                 | [] => false
                 | x :: t' => is_char x c && like p' t'
                 end
  end.

(** [text ILIKE pattern]: LIKE on the lower-cased operands. *)
Definition ilike (text pattern : string) : bool :=
  like (map uuid.lower (list_ascii_of_string pattern))
       (map uuid.lower (list_ascii_of_string text)).

(** ORDER BY created_at DESC (rows with equal keys keep their order). *)
Fixpoint insert_desc (c : Customer) (l : list Customer) : list Customer :=
  match l with
  | [] => [c]
  | x :: l' =>
      if CreatedAt x <=? CreatedAt c then c :: l else x :: insert_desc c l'
  end.

Definition order_by_created_at_desc (l : list Customer) : list Customer :=
  fold_right insert_desc [] l.

Definition same_key (a b : Customer) : bool :=
  uuid.eqb (MerchantID a) (MerchantID b) && String.eqb (Phone a) (Phone b).

(** UNIQUE(merchant_id, phone) on a whole table. *)
Fixpoint unique_merchant_phone (l : list Customer) : bool :=
  match l with
  | [] => true
  | r :: l' => negb (existsb (same_key r) l') && unique_merchant_phone l'
  end.

End sql.

(** ** The ambient effects of the Go runtime *)

(** [time.Now()] and [uuid.New()], for code that is independent of what
    it runs against. *)
Record Runtime (S : Type) : Type := {
  time_Now : S -> Z * S;
  uuid_New : S -> uuid.UUID * S
}.
Arguments time_Now {S} _ _.
Arguments uuid_New {S} _ _.

(** ** internal/customer/repository *)

Module repository.

(** [type Repository interface]. *)
Record Repository (S : Type) : Type := {
  Create : Customer -> M S Customer;
  GetByID : uuid.UUID -> M S (option Customer);
  GetByPhone : uuid.UUID -> string -> M S (option Customer);
  List : uuid.UUID -> Z -> Z -> string -> M S (list Customer * Z);
  Update : Customer -> M S Customer;
  Delete : uuid.UUID -> M S unit;
  AddLoyaltyPoints : uuid.UUID -> Z -> M S unit
}.
Arguments Create {S} _ _ _.
Arguments GetByID {S} _ _ _.
Arguments GetByPhone {S} _ _ _ _.
Arguments List {S} _ _ _ _ _ _.
Arguments Update {S} _ _ _.
Arguments Delete {S} _ _ _.
Arguments AddLoyaltyPoints {S} _ _ _ _.

(** What the process runs against: the table [customers] behind
    [sqlx.DB], the readings [time.Now()] will return, the bytes the
    random source will deliver, and for each coming statement whether
    the connection fails on it. An exhausted list means: time 0, bytes
    0, no failure. *)
Record World : Type := {
  customers : list Customer;
  clock : list Z;
  entropy : list Z;
  link : list bool
}.

Definition set_customers (w : World) (rows : list Customer) : World :=
  {| customers := rows; clock := clock w; entropy := entropy w; link := link w |}.

(** [time.Now()]. *)
Definition World_time_Now (w : World) : Z * World :=
  (hd 0 (clock w),
   {| customers := customers w; clock := tl (clock w);
      entropy := entropy w; link := link w |}).

(** [uuid.New()]. *)
Definition World_uuid_New (w : World) : uuid.UUID * World :=
  (uuid.set_v4 (map (fun i => nth i (entropy w) 0 mod 256) (seq 0 16)),
   {| customers := customers w; clock := clock w;
      entropy := skipn 16 (entropy w); link := link w |}).

Definition runtime : Runtime World :=
  {| time_Now := World_time_Now; uuid_New := World_uuid_New |}.

(** One statement sent over the connection. *)
Definition roundtrip : M World unit :=
  fun w =>
    let w' := {| customers := customers w; clock := clock w;
                 entropy := entropy w; link := tl (link w) |} in
    if hd false (link w) then (Err driver_ErrBadConn, w') else (Ok tt, w').

Definition has_id (id : uuid.UUID) (r : Customer) : bool := uuid.eqb (ID r) id.

(** The values of [c] as the columns take them. *)
Definition as_row (c : Customer) : option Customer :=
  match sql.varchar 255 (Name c), sql.varchar 20 (Phone c), sql.varchar 255 (Email c) with
  | Some name, Some phone, Some email =>
      Some {| ID := ID c; MerchantID := MerchantID c; Name := name;
              Phone := phone; Email := email; Address := Address c;
              LoyaltyPoints := LoyaltyPoints c;
              CreatedAt := CreatedAt c; UpdatedAt := UpdatedAt c |}
  | _, _, _ => None
  end.

Module pgRepository.

(** INSERT INTO customers (...) VALUES (...) *)
Definition Create (c : Customer) : M World Customer :=
  _ <- roundtrip ;;
  fun w =>
    match as_row c with
    | None => (Err (pg_Error sql.string_data_right_truncation), w)
    | Some row =>
        if existsb (has_id (ID row)) (customers w)
        then (Err (pg_Error sql.unique_violation), w)
        else if existsb (sql.same_key row) (customers w)
        then (Err (pg_Error sql.unique_violation), w)
        else (Ok c, set_customers w (customers w ++ [row]))
    end.

(** SELECT * FROM customers WHERE id = $1; [sql.ErrNoRows] becomes
    [(nil, nil)]. *)
Definition GetByID (id : uuid.UUID) : M World (option Customer) :=
  _ <- roundtrip ;;
  fun w => (Ok (find (has_id id) (customers w)), w).

(** SELECT * FROM customers WHERE merchant_id = $1 AND phone = $2 *)
Definition GetByPhone (merchantID : uuid.UUID) (phone : string)
  : M World (option Customer) :=
  _ <- roundtrip ;;
  fun w =>
    (Ok (find (fun r => uuid.eqb (MerchantID r) merchantID
                        && String.eqb (Phone r) phone) (customers w)), w).

(** The WHERE clause of both statements of [List]. *)
Definition selected (merchantID : uuid.UUID) (search : string) (r : Customer) : bool :=
  uuid.eqb (MerchantID r) merchantID
  && (if String.eqb search "" then true
      else let wildcard := ("%" ++ search ++ "%")%string in
           sql.ilike (Name r) wildcard || sql.ilike (Phone r) wildcard).

Definition List (merchantID : uuid.UUID) (page pageSize : Z) (search : string)
  : M World (list Customer * Z) :=
  let offset := wrap 64 (wrap 64 (page - 1) * pageSize) in
  _ <- roundtrip ;;
  page_rows <- (fun w =>
    if offset <? 0
    then (Err (pg_Error sql.invalid_row_count_in_result_offset_clause), w)
    else if pageSize <? 0
    then (Err (pg_Error sql.invalid_row_count_in_limit_clause), w)
    else (Ok (firstn (Z.to_nat pageSize)
                (skipn (Z.to_nat offset)
                   (sql.order_by_created_at_desc
                      (filter (selected merchantID search) (customers w))))), w)) ;;
  _ <- roundtrip ;;
  total <- (fun w =>
    (Ok (Z.of_nat (length (filter (selected merchantID search) (customers w)))), w)) ;;
  ret (page_rows, total).

(** UPDATE customers SET name, phone, email, address, updated_at
    WHERE id = :id. The statement fails when it would leave two rows
    with the same (merchant_id, phone). *)
Definition Update (c : Customer) : M World Customer :=
  now <- lift World_time_Now ;;
  let c := {| ID := ID c; MerchantID := MerchantID c; Name := Name c;
              Phone := Phone c; Email := Email c; Address := Address c;
              LoyaltyPoints := LoyaltyPoints c;
              CreatedAt := CreatedAt c; UpdatedAt := now |} in
  _ <- roundtrip ;;
  fun w =>
    match as_row c with
    | None => (Err (pg_Error sql.string_data_right_truncation), w)
    | Some v =>
        let rows :=
          map (fun r =>
                 if has_id (ID c) r
                 then {| ID := ID r; MerchantID := MerchantID r;
                         Name := Name v; Phone := Phone v;
                         Email := Email v; Address := Address v;
                         LoyaltyPoints := LoyaltyPoints r;
                         CreatedAt := CreatedAt r;
                         UpdatedAt := UpdatedAt v |}
                 else r)
              (customers w) in
        if sql.unique_merchant_phone rows
        then (Ok c, set_customers w rows)
        else (Err (pg_Error sql.unique_violation), w)
    end.

(** DELETE FROM customers WHERE id = $1 *)
Definition Delete (id : uuid.UUID) : M World unit :=
  _ <- roundtrip ;;
  fun w =>
    (Ok tt, set_customers w (filter (fun r => negb (has_id id r)) (customers w))).

(** UPDATE customers SET loyalty_points = loyalty_points + $1,
    updated_at = $2 WHERE id = $3. INTEGER addition that leaves the
    32-bit range is an error of the statement. *)
Definition AddLoyaltyPoints (id : uuid.UUID) (points : Z) : M World unit :=
  now <- lift World_time_Now ;;
  _ <- roundtrip ;;
  fun w =>
    if forallb (fun r => negb (has_id id r) || in_int32 (LoyaltyPoints r + points))
               (customers w)
    then (Ok tt,
          set_customers w
            (map (fun r =>
                    if has_id id r
                    then {| ID := ID r; MerchantID := MerchantID r;
                            Name := Name r; Phone := Phone r;
                            Email := Email r; Address := Address r;
                            LoyaltyPoints := LoyaltyPoints r + points;
                            CreatedAt := CreatedAt r; UpdatedAt := now |}
                    else r)
                 (customers w)))
    else (Err (pg_Error sql.numeric_value_out_of_range), w).

End pgRepository.

Definition NewPGRepository : Repository World :=
  {| Create := pgRepository.Create;
     GetByID := pgRepository.GetByID;
     GetByPhone := pgRepository.GetByPhone;
     List := pgRepository.List;
     Update := pgRepository.Update;
     Delete := pgRepository.Delete;
     AddLoyaltyPoints := pgRepository.AddLoyaltyPoints |}.

End repository.

(** ** internal/customer/usecase *)

Module usecase.

(** [type UseCase interface]. *)
Record UseCase (S : Type) : Type := {
  CreateCustomer : Customer -> M S Customer;
  GetCustomer : string -> M S Customer;
  ListCustomers : string -> Z -> Z -> string -> M S (list Customer * Z);
  UpdateCustomer : Customer -> M S Customer;
  DeleteCustomer : string -> M S unit;
  AddLoyaltyPoints : string -> Z -> M S Z
}.
Arguments CreateCustomer {S} _ _ _.
Arguments GetCustomer {S} _ _ _.
Arguments ListCustomers {S} _ _ _ _ _ _.
Arguments UpdateCustomer {S} _ _ _.
Arguments DeleteCustomer {S} _ _ _.
Arguments AddLoyaltyPoints {S} _ _ _ _.

Module customerUseCase.
Section customerUseCase.

Context {S : Type}.
Variable rt : Runtime S.
Variable repo : repository.Repository S.

Definition CreateCustomer (input : Customer) : M S Customer :=
id <- (if uuid.eqb (ID input) uuid.Nil
       then lift (uuid_New rt) else ret (ID input)) ;;
created <- lift (time_Now rt) ;;
updated <- lift (time_Now rt) ;;
let input := {| ID := id; MerchantID := MerchantID input;
                Name := Name input; Phone := Phone input;
                Email := Email input; Address := Address input;
                LoyaltyPoints := 0;
                CreatedAt := created; UpdatedAt := updated |} in
input <- repository.Create repo input ;;
ret input.

Definition GetCustomer (id : string) : M S Customer :=
match uuid.Parse id with
| None => fail (errors_New "invalid customer id")
| Some uid =>
    customer <- repository.GetByID repo uid ;;
    match customer with
    | None => fail (errors_New "customer not found")
    | Some c => ret c
    end
end.

Definition ListCustomers (merchantID : string) (page pageSize : Z) (search : string)
: M S (list Customer * Z) :=
match uuid.Parse merchantID with
| None => fail (errors_New "invalid merchant id")
| Some mid =>
    let page := if page <? 1 then 1 else page in
    let pageSize := if pageSize <? 1 then 10 else pageSize in
    repository.List repo mid page pageSize search
end.

Definition UpdateCustomer (input : Customer) : M S Customer :=
existing <- repository.GetByID repo (ID input) ;;
match existing with
| None => fail (errors_New "customer not found")
| Some existing =>
    now <- lift (time_Now rt) ;;
    let existing := {| ID := ID existing; MerchantID := MerchantID existing;
                       Name := Name input; Phone := Phone input;
                       Email := Email input; Address := Address input;
                       LoyaltyPoints := LoyaltyPoints existing;
                       CreatedAt := CreatedAt existing;
                       UpdatedAt := now |} in
    existing <- repository.Update repo existing ;;
    ret existing
end.

Definition DeleteCustomer (id : string) : M S unit :=
match uuid.Parse id with
| None => fail (errors_New "invalid customer id")
| Some uid => repository.Delete repo uid
end.

Definition AddLoyaltyPoints (customerID : string) (points : Z) : M S Z :=
match uuid.Parse customerID with
| None => fail (errors_New "invalid customer id")
| Some uid =>
    _ <- repository.AddLoyaltyPoints repo uid points ;;
    updatedCustomer <- repository.GetByID repo uid ;;
    match updatedCustomer with
    | None => fail (errors_New "customer not found after update")
    | Some c => ret (LoyaltyPoints c)
    end
end.

End customerUseCase.
End customerUseCase.

Definition NewCustomerUseCase {S : Type} (rt : Runtime S)
  (repo : repository.Repository S) : UseCase S :=
  {| CreateCustomer := customerUseCase.CreateCustomer rt repo;
     GetCustomer := customerUseCase.GetCustomer repo;
     ListCustomers := customerUseCase.ListCustomers repo;
     UpdateCustomer := customerUseCase.UpdateCustomer rt repo;
     DeleteCustomer := customerUseCase.DeleteCustomer repo;
     AddLoyaltyPoints := customerUseCase.AddLoyaltyPoints repo |}.

End usecase.

(** ** internal/customer/handler *)

Module handler.

(** The part of [context.Context] a handler can consult:
    [auth.GetMerchantID(ctx)]. *)
Record Context : Type := { GetMerchantID : string }.

Module customerv1.
Record Customer : Type := {
  Id : string;
  MerchantId : string;
  Name : string;
  Phone : string;
  Email : string;
  Address : string;
  LoyaltyPoints : Z;
  CreatedAt : Z;
  UpdatedAt : Z
}.
End customerv1.

Definition mapToProto (c : model.Customer) : customerv1.Customer :=
  {| customerv1.Id := uuid.String (ID c);
     customerv1.MerchantId := uuid.String (MerchantID c);
     customerv1.Name := Name c;
     customerv1.Phone := Phone c;
     customerv1.Email := Email c;
     customerv1.Address := Address c;
     customerv1.LoyaltyPoints := LoyaltyPoints c;
     customerv1.CreatedAt := CreatedAt c;
     customerv1.UpdatedAt := UpdatedAt c |}.

(** What a handler can return as its error: a gRPC status it built
    itself, or the error of the use case as it received it. *)
Inductive Code : Type := Unauthenticated.

Inductive rpc_error : Type :=
| status_Error (code : Code) (msg : string)
| forwarded (e : error).

Module CustomerHandler.
Section CustomerHandler.

Context {S : Type}.
Variable useCase : usecase.UseCase S.

(** The request carries name, phone, email and address; the response is
    [Id]. *)
Definition CreateCustomer (ctx : Context) (req_Name req_Phone req_Email req_Address : string)
  : S -> (string + rpc_error) * S :=
  fun s =>
    let merchantID := GetMerchantID ctx in
    if String.eqb merchantID ""
    then (inr (status_Error Unauthenticated "merchant id not found in context"), s)
    else
      match uuid.Parse merchantID with
      | None => (inr (status_Error Unauthenticated "invalid merchant id format"), s)
      | Some mid =>
          let input := {| model.ID := uuid.Nil; model.MerchantID := mid;
                          model.Name := req_Name; model.Phone := req_Phone;
                          model.Email := req_Email; model.Address := req_Address;
                          model.LoyaltyPoints := 0;
                          model.CreatedAt := 0; model.UpdatedAt := 0 |} in
          match usecase.CreateCustomer useCase input s with
          | (Err err, s') => (inr (forwarded err), s')
          | (Ok res, s') => (inl (uuid.String (model.ID res)), s')
          end
      end.

(** The request carries page, page size (both int32) and search; the
    response is [Customers] and [Total]. *)
Definition ListCustomers (ctx : Context) (req_Page req_PageSize : Z) (req_Search : string)
  : S -> (list customerv1.Customer * Z + rpc_error) * S :=
  fun s =>
    let merchantID := GetMerchantID ctx in
    if String.eqb merchantID ""
    then (inr (status_Error Unauthenticated "merchant id not found in context"), s)
    else
      match usecase.ListCustomers useCase merchantID req_Page req_PageSize req_Search s with
      | (Err err, s') => (inr (forwarded err), s')
      | (Ok (res, total), s') => (inl (map mapToProto res, wrap 32 total), s')
      end.

(** [req.Id] is the only field of the request. *)
Definition GetCustomer (ctx : Context) (req_Id : string) : M S customerv1.Customer :=
res <- usecase.GetCustomer useCase req_Id ;;
ret (mapToProto res).

(** The response is [TotalPoints]. *)
Definition AddLoyaltyPoints (ctx : Context) (req_CustomerId : string) (req_Points : Z)
: M S Z :=
newPoints <- usecase.AddLoyaltyPoints useCase req_CustomerId req_Points ;;
ret newPoints.

End CustomerHandler.
End CustomerHandler.

End handler.

(** ** internal/customer/listener *)

Module listener.

(** float64, as IEEE 754 binary64 values. *)
Definition float64 : Type := spec_float.

Definition float64_div (x y : float64) : float64 := SFdiv 53 1024 x y.

(** The float64 of an integer (exact below 2^53). *)
Definition float64_of_Z (z : Z) : float64 := binary_normalize 53 1024 z 0 false.

(** [math.Floor]. *)
Definition math_Floor (x : float64) : float64 :=
  match x with
  | S754_finite s m e =>
      if e <? 0
      then binary_normalize 53 1024
             (cond_Zopp s (Zpos m) / 2 ^ (- e)) 0 s
      else x
  | _ => x
  end.

(** The integer part of a finite value. *)
Definition float64_trunc (x : float64) : option Z :=
  match x with
  | S754_zero _ => Some 0
  | S754_finite s m e =>
      Some (if e <? 0
            then cond_Zopp s (Zpos m / 2 ^ (- e))
            else cond_Zopp s (Zpos m * 2 ^ e))
  | _ => None
  end.

(** [int32(x)]: the fraction is discarded; when the value does not fit,
    the Go specification leaves the result to the implementation,
    here [overflow x]. *)
Definition int32_of_float64 (overflow : float64 -> Z) (x : float64) : Z :=
  match float64_trunc x with
  | Some z => if in_int32 z then z else wrap 32 (overflow x)
  | None => wrap 32 (overflow x)
  end.

Record OrderPayload : Type := {
  ID : string;
  CustomerID : option string;       (* *string *)
  TotalAmount : float64
}.

Record OrderCreatedEvent : Type := {
  EventID : string;
  EventType : string;
  Payload : OrderPayload;
  Timestamp : Z
}.

(** What one turn of the loop of [Start] meets: the context cancelled at
    the [select]; a message read; or a failed read, with whether the
    context is cancelled by then ([ctx.Err() != nil]) - if not, the loop
    logs, sleeps a second and goes on. *)
Inductive Poll : Type :=
| Cancelled
| Received (value : list Z)
| ReadFailed (cancelled : bool).

Module CustomerListener.
Section CustomerListener.

Context {S : Type}.
Variable uc : usecase.UseCase S.
(** [json.Unmarshal(value, &event)]: the decoded event, or an error. *)
Variable json_Unmarshal : list Z -> option OrderCreatedEvent.
Variable overflow : float64 -> Z.

Definition processMessage (value : list Z) : S -> S :=
fun s =>
  match json_Unmarshal value with
  | None => s
  | Some event =>
      if negb (String.eqb (EventType event) "OrderCreated") then s
      else
        match CustomerID (Payload event) with
        | None => s
        | Some customerID =>
            if String.eqb customerID "" then s
            else
              let points :=
                int32_of_float64 overflow
                  (math_Floor (float64_div (TotalAmount (Payload event))
                                           (float64_of_Z 10))) in
              if 0 <? points
              then snd (usecase.AddLoyaltyPoints uc customerID points s)
              else s
        end
  end.

(** [Start], on what the turns of its loop meet: the state it leaves, and
    whether it has returned by the end of those turns. *)
Fixpoint Start (turns : list Poll) (s : S) : S * bool :=
  match turns with
  | [] => (s, false)
  | Cancelled :: _ => (s, true)
  | ReadFailed true :: _ => (s, true)
  | ReadFailed false :: rest => Start rest s
  | Received value :: rest => Start rest (processMessage value s)
  end.

End CustomerListener.
End CustomerListener.

End listener.

(** * Properties *)

Import repository.

(** The domain service over the PostgreSQL repository, as [main] wires it. *)
Definition pg : Repository World := NewPGRepository.
Definition uc : usecase.UseCase World := usecase.NewCustomerUseCase runtime pg.

(** The first [n] coming statements reach the store. *)
Definition connected (n : nat) (w : World) : Prop :=
  forallb negb (firstn n (link w)) = true.

(** The text fields of [c] are within the column widths. *)
Definition fits (c : Customer) : Prop :=
  (String.length (Name c) <= 255
   /\ String.length (Phone c) <= 20
   /\ String.length (Email c) <= 255)%nat.

(** The identifier [CreateCustomer] stores [input] under. *)
Definition assigned_id (input : Customer) (w : World) : uuid.UUID :=
  if uuid.eqb (ID input) uuid.Nil then fst (World_uuid_New w) else ID input.

(** The calls a client of the domain service can make. *)
Inductive Op : Type :=
| OpCreateCustomer (input : Customer)
| OpGetCustomer (id : string)
| OpListCustomers (merchantID : string) (page pageSize : Z) (search : string)
| OpUpdateCustomer (input : Customer)
| OpDeleteCustomer (id : string)
| OpAddLoyaltyPoints (customerID : string) (points : Z).

(** The world after one call, whatever it returned. *)
Definition step (w : World) (op : Op) : World :=
  match op with
  | OpCreateCustomer input => snd (usecase.CreateCustomer uc input w)
  | OpGetCustomer id => snd (usecase.GetCustomer uc id w)
  | OpListCustomers m page pageSize search =>
      snd (usecase.ListCustomers uc m page pageSize search w)
  | OpUpdateCustomer input => snd (usecase.UpdateCustomer uc input w)
  | OpDeleteCustomer id => snd (usecase.DeleteCustomer uc id w)
  | OpAddLoyaltyPoints id points => snd (usecase.AddLoyaltyPoints uc id points w)
  end.

Definition run (ops : list Op) (w : World) : World := fold_left step ops w.

(** No call takes points away. *)
Definition awards_only (op : Op) : Prop :=
  match op with
  | OpAddLoyaltyPoints _ points => 0 <= points
  | _ => True
  end.

Definition balances_non_negative (w : World) : Prop :=
  Forall (fun c => 0 <= LoyaltyPoints c) (customers w).

(** A stand-in for the domain service that only records the
    [AddLoyaltyPoints] calls it receives. *)
Definition recorder : usecase.UseCase (list (string * Z)) :=
  {| usecase.CreateCustomer := fun _ => fail (errors_New "unexpected call");
     usecase.GetCustomer := fun _ => fail (errors_New "unexpected call");
     usecase.ListCustomers := fun _ _ _ _ => fail (errors_New "unexpected call");
     usecase.UpdateCustomer := fun _ => fail (errors_New "unexpected call");
     usecase.DeleteCustomer := fun _ => fail (errors_New "unexpected call");
     usecase.AddLoyaltyPoints :=
       fun customerID points calls => (Ok 0, calls ++ [(customerID, points)]) |}.

(** The integer [math.Floor(total / 10.0)] stands for. *)
Definition award (total : listener.float64) : option Z :=
  listener.float64_trunc
    (listener.math_Floor (listener.float64_div total (listener.float64_of_Z 10))).

(** Out-of-range conversions as amd64 performs them. *)
Definition amd64 (x : listener.float64) : Z := MinInt32.

Definition order (event_type : string) (customer : option string) (total : Z)
  : listener.OrderCreatedEvent :=
  {| listener.EventID := "e-1"; listener.EventType := event_type;
     listener.Payload := {| listener.ID := "o-1";
                            listener.CustomerID := customer;
                            listener.TotalAmount := listener.float64_of_Z total |};
     listener.Timestamp := 0 |}.






Definition MaxInt64 : Z := 9223372036854775807.

(** The columns of UNIQUE(merchant_id, phone). *)
Definition merchant_phone (r : Customer) : uuid.UUID * string :=
  (MerchantID r, Phone r).

(** The ways a call can change the table: not at all; by one inserted
    row; by new profile columns and update time on the rows of one
    identifier; by the removal of the rows of one identifier; by an
    increment of the balance, with a new update time, on the rows of one
    identifier. *)
Inductive effect (rows : list Customer) : Op -> list Customer -> Prop :=
| effect_none : forall op, effect rows op rows
| effect_insert : forall input row,
    ~ In (ID row) (map ID rows) ->
    ~ In (merchant_phone row) (map merchant_phone rows) ->
    MerchantID row = MerchantID input ->
    LoyaltyPoints row = 0 ->
    Address row = Address input ->
    sql.varchar 255 (Name input) = Some (Name row) ->
    sql.varchar 20 (Phone input) = Some (Phone row) ->
    sql.varchar 255 (Email input) = Some (Email row) ->
    effect rows (OpCreateCustomer input) (rows ++ [row])
| effect_update : forall input name phone email now,
    sql.varchar 255 (Name input) = Some name ->
    sql.varchar 20 (Phone input) = Some phone ->
    sql.varchar 255 (Email input) = Some email ->
    effect rows (OpUpdateCustomer input)
      (map (fun r =>
              if has_id (ID input) r
              then {| ID := ID r; MerchantID := MerchantID r;
                      Name := name; Phone := phone; Email := email;
                      Address := Address input;
                      LoyaltyPoints := LoyaltyPoints r;
                      CreatedAt := CreatedAt r; UpdatedAt := now |}
              else r) rows)
| effect_delete : forall id uid,
    uuid.Parse id = Some uid ->
    effect rows (OpDeleteCustomer id) (filter (fun r => negb (has_id uid r)) rows)
| effect_increment : forall id uid points now,
    uuid.Parse id = Some uid ->
    (forall r, In r rows -> ID r = uid -> in_int32 (LoyaltyPoints r + points) = true) ->
    effect rows (OpAddLoyaltyPoints id points)
      (map (fun r =>
              if has_id uid r
              then {| ID := ID r; MerchantID := MerchantID r;
                      Name := Name r; Phone := Phone r;
                      Email := Email r; Address := Address r;
                      LoyaltyPoints := LoyaltyPoints r + points;
                      CreatedAt := CreatedAt r; UpdatedAt := now |}
              else r) rows).

(** The turn ends the loop of [Start]. *)
Definition stops (turn : listener.Poll) : bool :=
  match turn with
  | listener.Cancelled | listener.ReadFailed true => true
  | _ => false
  end.

(** The messages read before the loop ends, in the order read. *)
Fixpoint handled (turns : list listener.Poll) : list (list Z) :=
  match turns with
  | [] => []
  | listener.Received value :: rest => value :: handled rest
  | turn :: rest => if stops turn then [] else handled rest
  end.

(** Sixteen bytes. *)
Definition well_formed (u : uuid.UUID) : Prop :=
  length u = 16%nat /\ Forall (fun b => 0 <= b < 256) u.

(** The rows of a page that [List] returned, none when it failed. *)
Definition page_rows (r : result (list Customer * Z) * World) : list Customer :=
  match fst r with
  | Ok (rows, _) => rows
  | Err _ => []
  end.

(** Sample data. *)
Definition merchant_a : uuid.UUID := [161; 0; 0; 0; 0; 0; 64; 0; 128; 0; 0; 0; 0; 0; 0; 1].
Definition merchant_b : uuid.UUID := [178; 0; 0; 0; 0; 0; 64; 0; 128; 0; 0; 0; 0; 0; 0; 2].

(** A creation request as the handler builds it, except for a balance the
    caller has no right to. *)
Definition alice : Customer :=
  {| ID := uuid.Nil; MerchantID := merchant_a; Name := "Alice";
     Phone := "0811000111"; Email := "alice@example.com";
     Address := "Jl. Merdeka 1"; LoyaltyPoints := 50;
     CreatedAt := 0; UpdatedAt := 0 |}.

(** A customer of another merchant with the same phone number. *)
Definition bob : Customer :=
  {| ID := uuid.Nil; MerchantID := merchant_b; Name := "Bob";
     Phone := "0811000111"; Email := ""; Address := "";
     LoyaltyPoints := 0; CreatedAt := 0; UpdatedAt := 0 |}.

(** An empty store, a clock that advances between two readings, a random
    source, a healthy connection. *)
Definition fresh : World :=
  {| customers := [];
     clock := [1000; 1001; 1002; 1003; 1004; 1005; 1006; 1007];
     entropy := map Z.of_nat (seq 1 32);
     link := [] |}.

(** The store after [alice] has been created. *)
Definition shop_a : World :=
  Eval vm_compute in snd (usecase.CreateCustomer uc alice fresh).

(** The store after [alice] and [bob] have been created. *)
Definition shop : World :=
  Eval vm_compute in
    snd (usecase.CreateCustomer uc bob (snd (usecase.CreateCustomer uc alice fresh))).

Definition alice_id : string := "01020304-0506-4708-890a-0b0c0d0e0f10".

Definition bob_id : string := "11121314-1516-4718-991a-1b1c1d1e1f20".

(** A caller authenticated as the first merchant. *)
Definition as_merchant_a : handler.Context :=
  {| handler.GetMerchantID := uuid.String merchant_a |}.

Definition unplug (schedule : list bool) (w : World) : World :=
  {| customers := customers w; clock := clock w; entropy := entropy w;
     link := schedule |}.

(** Unfold a call down to the statements of the PostgreSQL repository. *)
Ltac to_statements :=
  unfold pg, NewPGRepository; simpl;
  unfold pgRepository.Create, pgRepository.GetByID, pgRepository.Update,
    pgRepository.Delete, pgRepository.AddLoyaltyPoints, pgRepository.List,
    bind, lift, ret, roundtrip; simpl.

(** ** The connection *)

Lemma connected_hd : forall n w, connected (S n) w -> hd false (link w) = false.
Proof.
  intros n w H. unfold connected in H.
  destruct (link w) as [|[] l]; simpl in *; try reflexivity; discriminate.
Qed.

Lemma connected_hd_tl :
  forall n w, connected (S (S n)) w -> hd false (tl (link w)) = false.
Proof.
  intros n w H. unfold connected in H.
  destruct (link w) as [|[] [|[] l]]; simpl in *; try reflexivity; discriminate.
Qed.

(** ** Pagination defaults *)

(** C8. [ListCustomers] replaces a page below 1 by 1 and a page size
    below 1 by 10, each on its own, and hands every other value to the
    repository as it is: a call returns what the call with the replaced
    values returns, so one with both values non-positive returns what the
    call with page 1 and page size 10 returns. *)
Theorem ListCustomers_defaults :
  forall (S : Type) (repo : Repository S) (merchantID : string)
         (page pageSize : Z) (search : string) (s : S),
    let page' := if page <? 1 then 1 else page in
    let pageSize' := if pageSize <? 1 then 10 else pageSize in
    usecase.customerUseCase.ListCustomers repo merchantID page pageSize search s
    = usecase.customerUseCase.ListCustomers repo merchantID page' pageSize' search s
    /\ usecase.customerUseCase.ListCustomers repo merchantID page pageSize search s
       = match uuid.Parse merchantID with
         | Some mid => List repo mid page' pageSize' search s
         | None => (Err (errors_New "invalid merchant id"), s)
         end
    /\ (if (page <? 1) && (pageSize <? 1)
        then usecase.customerUseCase.ListCustomers repo merchantID page pageSize search s
             = usecase.customerUseCase.ListCustomers repo merchantID 1 10 search s
        else True)
    /\ (if (0 <? page) && (0 <? pageSize)
        then page' = page /\ pageSize' = pageSize
        else True).
Proof.
  intros S repo merchantID page pageSize search s page' pageSize'.
  assert (Hpage : (if page' <? 1 then 1 else page') = page').
  { subst page'. destruct (Z.ltb_spec page 1); [reflexivity|].
    destruct (Z.ltb_spec page 1); [lia | reflexivity]. }
  assert (Hsize : (if pageSize' <? 1 then 10 else pageSize') = pageSize').
  { subst pageSize'. destruct (Z.ltb_spec pageSize 1); [reflexivity|].
    destruct (Z.ltb_spec pageSize 1); [lia | reflexivity]. }
  unfold usecase.customerUseCase.ListCustomers.
  fold page' pageSize'.
  destruct (uuid.Parse merchantID) as [mid|]; rewrite ?Hpage, ?Hsize;
    (split; [reflexivity | split; [reflexivity | split]]).
  - subst page' pageSize'.
    destruct (page <? 1), (pageSize <? 1); simpl; auto.
  - subst page' pageSize'.
    destruct (Z.ltb_spec 0 page), (Z.ltb_spec 0 pageSize); simpl; auto.
    destruct (Z.ltb_spec page 1), (Z.ltb_spec pageSize 1); split; lia.
  - destruct ((page <? 1) && (pageSize <? 1)); auto.
  - subst page' pageSize'.
    destruct (Z.ltb_spec 0 page), (Z.ltb_spec 0 pageSize); simpl; auto.
    destruct (Z.ltb_spec page 1), (Z.ltb_spec pageSize 1); split; lia.
Qed.

(** ** Creation *)

Lemma set_v4_not_Nil :
  forall f : nat -> Z, uuid.set_v4 (map f (seq 0 16)) <> uuid.Nil.
Proof.
  intros f H. unfold uuid.set_v4, uuid.Nil in H. simpl in H.
  injection H as _ _ _ _ _ _ H6 _.
  apply Z.lor_eq_0_iff in H6. destruct H6 as [_ H6]. discriminate H6.
Qed.

Lemma uuid_eqb_eq : forall a b, uuid.eqb a b = true <-> a = b.
Proof.
  intros a b. unfold uuid.eqb. destruct (uuid.eq_dec a b); split; congruence.
Qed.

Lemma uuid_eqb_refl : forall a, uuid.eqb a a = true.
Proof. intros a. apply uuid_eqb_eq. reflexivity. Qed.

Lemma uuid_eqb_neq : forall a b, uuid.eqb a b = false <-> a <> b.
Proof.
  intros a b. unfold uuid.eqb. destruct (uuid.eq_dec a b); split; congruence.
Qed.

(** C2, as the code has it. The record [CreateCustomer] returns has a
    non-nil identifier (the caller's, or a fresh version-4 one when the
    caller gave none), a balance of zero whatever the caller supplied,
    [created_at] equal to the first and [updated_at] equal to the second
    of two successive readings of the clock; the row it stored carries the
    same identifier, balance and timestamps. *)
Theorem CreateCustomer_returned_record :
  forall (input : Customer) (w w' : World) (c : Customer),
    usecase.customerUseCase.CreateCustomer runtime pg input w = (Ok c, w') ->
    ID c <> uuid.Nil
    /\ ID c = (if uuid.eqb (ID input) uuid.Nil
               then fst (World_uuid_New w) else ID input)
    /\ LoyaltyPoints c = 0
    /\ CreatedAt c = hd 0 (clock w)
    /\ UpdatedAt c = hd 0 (tl (clock w))
    /\ exists row, In row (customers w')
         /\ ID row = ID c /\ MerchantID row = MerchantID input
         /\ LoyaltyPoints row = 0
         /\ CreatedAt row = CreatedAt c /\ UpdatedAt row = UpdatedAt c.
Proof.
  intros input w w' c H.
  unfold usecase.customerUseCase.CreateCustomer, bind, lift, ret in H.
  simpl in H.
  set (id := if uuid.eqb (ID input) uuid.Nil
             then fst (World_uuid_New w) else ID input) in *.
  assert (Hid : id <> uuid.Nil).
  { subst id. destruct (uuid.eqb (ID input) uuid.Nil) eqn:E.
    - apply set_v4_not_Nil.
    - apply uuid_eqb_neq. exact E. }
  destruct (uuid.eqb (ID input) uuid.Nil) eqn:E; simpl in H;
    unfold pgRepository.Create, bind, roundtrip in H; simpl in H;
    (destruct (hd false (link w)); [discriminate H|]);
    simpl in H;
    match type of H with
    | context [as_row ?x] => destruct (as_row x) as [row|] eqn:Hrow
    end; try discriminate H;
    (destruct (existsb (has_id (ID row)) (customers w)); [discriminate H|]);
    (destruct (existsb (sql.same_key row) (customers w)); [discriminate H|]);
    injection H as Hc Hw; subst c w'; simpl;
    (repeat split; try reflexivity; try exact Hid);
    exists row; (split; [apply in_or_app; right; left; reflexivity|]);
    unfold as_row in Hrow; simpl in Hrow;
    destruct (sql.varchar 255 (Name input)); try discriminate Hrow;
    destruct (sql.varchar 20 (Phone input)); try discriminate Hrow;
    destruct (sql.varchar 255 (Email input)); try discriminate Hrow;
    injection Hrow as Hrow; subst row; simpl; repeat split; reflexivity.
Qed.

Lemma CreateCustomer_returned_record_witness :
  exists c w',
    usecase.customerUseCase.CreateCustomer runtime pg alice fresh = (Ok c, w')
    /\ ID c <> uuid.Nil /\ LoyaltyPoints c = 0
    /\ CreatedAt c = 1000 /\ UpdatedAt c = 1001.
Proof.
  destruct (usecase.customerUseCase.CreateCustomer runtime pg alice fresh)
    as [[c|e] w'] eqn:E; [| vm_compute in E; discriminate E].
  exists c, w'. split; [reflexivity|].
  destruct (CreateCustomer_returned_record alice fresh w' c E)
    as (H1 & _ & H3 & H4 & H5 & _).
  repeat split; assumption.
Defined.

(** C2 as written fails: the clock is read once for [created_at] and once
    more for [updated_at], so the two differ as soon as the clock has
    moved in between. *)
Lemma CreateCustomer_timestamps_differ :
  exists c w',
    usecase.customerUseCase.CreateCustomer runtime pg alice fresh = (Ok c, w')
    /\ CreatedAt c = 1000 /\ UpdatedAt c = 1001
    /\ CreatedAt c <> UpdatedAt c.
Proof.
  eexists. eexists. split; [vm_compute; reflexivity|].
  simpl. repeat split; discriminate.
Qed.

(** ** The increment and its confirmation *)

Lemma find_absent :
  forall id rows, (forall r, In r rows -> ID r <> id) -> find (has_id id) rows = None.
Proof.
  intros id rows H. induction rows as [|r rows IH]; [reflexivity|].
  simpl. unfold has_id at 1.
  destruct (uuid.eqb (ID r) id) eqn:E.
  - apply uuid_eqb_eq in E. exfalso. apply (H r); [left; reflexivity | exact E].
  - apply IH. intros r' Hr'. apply H. right. exact Hr'.
Qed.

Lemma map_absent :
  forall id (f : Customer -> Customer) rows,
    (forall r, In r rows -> ID r <> id) ->
    map (fun r => if has_id id r then f r else r) rows = rows.
Proof.
  intros id f rows H. induction rows as [|r rows IH]; [reflexivity|].
  simpl. unfold has_id at 1.
  destruct (uuid.eqb (ID r) id) eqn:E.
  - apply uuid_eqb_eq in E. exfalso. apply (H r); [left; reflexivity | exact E].
  - f_equal. apply IH. intros r' Hr'. apply H. right. exact Hr'.
Qed.

Lemma forallb_absent :
  forall id (p : Customer -> bool) rows,
    (forall r, In r rows -> ID r <> id) ->
    forallb (fun r => negb (has_id id r) || p r) rows = true.
Proof.
  intros id p rows H. apply forallb_forall. intros r Hr.
  unfold has_id. destruct (uuid.eqb (ID r) id) eqn:E; [|reflexivity].
  apply uuid_eqb_eq in E. exfalso. exact (H r Hr E).
Qed.

(** C10. For a well-formed identifier that matches no stored customer
    (the connection being up), the repository increment reports success
    and changes no row, the confirmation read returns the not-found
    sentinel, and [AddLoyaltyPoints] returns the error "customer not found
    after update" with every stored record as it was. *)
Theorem AddLoyaltyPoints_unknown_customer :
  forall (customerID : string) (uid : uuid.UUID) (points : Z) (w : World),
    uuid.Parse customerID = Some uid ->
    (forall r, In r (customers w) -> ID r <> uid) ->
    connected 2 w ->
    exists w1 w',
      pgRepository.AddLoyaltyPoints uid points w = (Ok tt, w1)
      /\ customers w1 = customers w
      /\ pgRepository.GetByID uid w1 = (Ok None, w')
      /\ usecase.customerUseCase.AddLoyaltyPoints pg customerID points w
         = (Err (errors_New "customer not found after update"), w')
      /\ customers w' = customers w.
Proof.
  intros customerID uid points w Hparse Habs Hconn.
  pose proof (connected_hd _ _ Hconn) as H1.
  pose proof (connected_hd_tl _ _ Hconn) as H2.
  unfold usecase.customerUseCase.AddLoyaltyPoints. rewrite Hparse.
  to_statements. rewrite H1. simpl.
  rewrite (forallb_absent uid _ _ Habs).
  rewrite (map_absent uid _ _ Habs).
  eexists. eexists. split; [reflexivity|]. simpl.
  rewrite H2. simpl. rewrite (find_absent uid _ Habs).
  repeat split; reflexivity.
Qed.

Lemma AddLoyaltyPoints_unknown_customer_witness :
  exists w',
    usecase.customerUseCase.AddLoyaltyPoints pg
      "99999999-9999-4999-8999-999999999999" 7 shop
    = (Err (errors_New "customer not found after update"), w')
    /\ customers w' = customers shop.
Proof.
  destruct (AddLoyaltyPoints_unknown_customer
              "99999999-9999-4999-8999-999999999999"
              [153; 153; 153; 153; 153; 153; 73; 153; 137; 153; 153; 153; 153; 153; 153; 153]
              7 shop)
    as (w1 & w' & _ & _ & _ & H & Hrows).
  - reflexivity.
  - intros r Hr. simpl in Hr.
    destruct Hr as [Hr|[Hr|[]]]; subst r; simpl; discriminate.
  - reflexivity.
  - exists w'. split; assumption.
Defined.

(** Whatever the repository, once the increment has succeeded the use
    case performs the confirmation read and nothing after it. *)
Lemma AddLoyaltyPoints_stops_at_reread :
  forall (S : Type) (repo : Repository S) (customerID : string)
         (uid : uuid.UUID) (points : Z) (s s1 s2 : S)
         (r : result (option Customer)),
    uuid.Parse customerID = Some uid ->
    AddLoyaltyPoints repo uid points s = (Ok tt, s1) ->
    GetByID repo uid s1 = (r, s2) ->
    usecase.customerUseCase.AddLoyaltyPoints repo customerID points s
    = (match r with
       | Ok (Some c) => Ok (LoyaltyPoints c)
       | Ok None => Err (errors_New "customer not found after update")
       | Err e => Err e
       end, s2).
Proof.
  intros S repo customerID uid points s s1 s2 r Hparse Hadd Hget.
  unfold usecase.customerUseCase.AddLoyaltyPoints. rewrite Hparse.
  unfold bind. rewrite Hadd, Hget.
  destruct r as [[c|]|e]; reflexivity.
Qed.

Lemma pg_AddLoyaltyPoints_rows :
  forall uid points w w1,
    pgRepository.AddLoyaltyPoints uid points w = (Ok tt, w1) ->
    Forall2 (fun old new =>
               ID new = ID old
               /\ LoyaltyPoints new
                  = if has_id uid old then LoyaltyPoints old + points
                    else LoyaltyPoints old)
            (customers w) (customers w1).
Proof.
  intros uid points w w1 H.
  unfold pgRepository.AddLoyaltyPoints, bind, lift, roundtrip in H. simpl in H.
  destruct (hd false (link w)); [discriminate H|]. simpl in H.
  match type of H with
  | context [forallb ?p ?l] => destruct (forallb p l)
  end; [|discriminate H].
  injection H as Hw. subst w1. simpl.
  induction (customers w) as [|r rows IH]; simpl; constructor; try exact IH.
  destruct (has_id uid r); simpl; split; reflexivity.
Qed.

Lemma pg_GetByID_rows :
  forall uid w r w', pgRepository.GetByID uid w = (r, w') -> customers w' = customers w.
Proof.
  intros uid w r w' H.
  unfold pgRepository.GetByID, bind, roundtrip in H. simpl in H.
  destruct (hd false (link w)); injection H as _ Hw; subst w'; reflexivity.
Qed.

(** C3. When the repository increment has succeeded and the confirmation
    read then fails or reports absence, [AddLoyaltyPoints] returns an
    error, and the store is left as the increment made it: every row with
    the identifier carries its old balance plus the points, no row is
    put back. *)
Theorem AddLoyaltyPoints_unconfirmed :
  forall (customerID : string) (uid : uuid.UUID) (points : Z)
         (w w1 w2 : World) (r : result (option Customer)),
    uuid.Parse customerID = Some uid ->
    pgRepository.AddLoyaltyPoints uid points w = (Ok tt, w1) ->
    pgRepository.GetByID uid w1 = (r, w2) ->
    r = Ok None \/ (exists e, r = Err e) ->
    (exists e,
        usecase.customerUseCase.AddLoyaltyPoints pg customerID points w = (Err e, w2))
    /\ Forall2 (fun old new =>
                  ID new = ID old
                  /\ LoyaltyPoints new
                     = if has_id uid old then LoyaltyPoints old + points
                       else LoyaltyPoints old)
               (customers w) (customers w2).
Proof.
  intros customerID uid points w w1 w2 r Hparse Hadd Hget Hr.
  split.
  - rewrite (AddLoyaltyPoints_stops_at_reread World pg customerID uid points
               w w1 w2 r Hparse Hadd Hget).
    destruct Hr as [Hr|[e Hr]]; subst r; eexists; reflexivity.
  - rewrite (pg_GetByID_rows uid w1 r w2 Hget).
    exact (pg_AddLoyaltyPoints_rows uid points w w1 Hadd).
Qed.

Lemma AddLoyaltyPoints_unconfirmed_witness :
  exists w2,
    usecase.customerUseCase.AddLoyaltyPoints pg alice_id 5
      (unplug [false; true] shop) = (Err driver_ErrBadConn, w2)
    /\ map LoyaltyPoints (customers shop) = [0; 0]
    /\ map LoyaltyPoints (customers w2) = [5; 0].
Proof.
  set (uid := [1; 2; 3; 4; 5; 6; 71; 8; 137; 10; 11; 12; 13; 14; 15; 16]).
  destruct (pgRepository.AddLoyaltyPoints uid 5 (unplug [false; true] shop))
    as [r1 w1] eqn:E1.
  destruct (pgRepository.GetByID uid w1) as [r w2] eqn:E2.
  assert (Hr1 : r1 = Ok tt) by (vm_compute in E1; congruence).
  subst r1.
  assert (Hr : r = Err driver_ErrBadConn).
  { vm_compute in E1. injection E1 as Hw1. subst w1.
    vm_compute in E2. congruence. }
  destruct (AddLoyaltyPoints_unconfirmed alice_id uid 5
              (unplug [false; true] shop) w1 w2 r eq_refl E1 E2)
    as [[e He] Hrows].
  - right. exists driver_ErrBadConn. exact Hr.
  - exists w2. split; [|split].
    + rewrite He. f_equal. f_equal.
      vm_compute in E1. injection E1 as Hw1. subst w1.
      vm_compute in E2. injection E2 as _ Hw2. subst w2.
      vm_compute in He. congruence.
    + reflexivity.
    + vm_compute in E1. injection E1 as Hw1. subst w1.
      vm_compute in E2. injection E2 as _ Hw2. subst w2. reflexivity.
Defined.

(** ** Lookup by identifier *)

Lemma find_stored :
  forall rows c,
    NoDup (map ID rows) -> In c rows -> find (has_id (ID c)) rows = Some c.
Proof.
  induction rows as [|r rows IH]; intros c Hnd Hin; [destruct Hin|].
  simpl in *. inversion Hnd as [|x l Hnotin Hnd' Heq]; subst.
  unfold has_id at 1. destruct Hin as [Hin|Hin].
  - subst r. rewrite uuid_eqb_refl. reflexivity.
  - destruct (uuid.eqb (ID r) (ID c)) eqn:E.
    + apply uuid_eqb_eq in E. exfalso. apply Hnotin. rewrite E.
      apply in_map. exact Hin.
    + apply IH; assumption.
Qed.

(** C6. [GetCustomer] answers "invalid customer id" to every string that
    does not parse as an identifier, and "customer not found" when the
    repository reports absence. Given the identifier of a stored customer
    (the connection being up) it returns that customer's record, and so
    does the handler for any caller: neither takes or checks a merchant,
    so a customer of another merchant is retrievable by identifier. *)
Theorem GetCustomer_by_id :
  (forall (S : Type) (repo : Repository S) (id : string) (s : S),
      uuid.Parse id = None ->
      usecase.customerUseCase.GetCustomer repo id s
      = (Err (errors_New "invalid customer id"), s))
  /\ (forall (S : Type) (repo : Repository S) (id : string) (uid : uuid.UUID) (s s' : S),
         uuid.Parse id = Some uid ->
         GetByID repo uid s = (Ok None, s') ->
         usecase.customerUseCase.GetCustomer repo id s
         = (Err (errors_New "customer not found"), s'))
  /\ (forall (ctx : handler.Context) (id : string) (c : Customer) (w : World),
         NoDup (map ID (customers w)) ->
         In c (customers w) ->
         uuid.Parse id = Some (ID c) ->
         connected 1 w ->
         exists w',
           usecase.customerUseCase.GetCustomer pg id w = (Ok c, w')
           /\ handler.CustomerHandler.GetCustomer uc ctx id w
              = (Ok (handler.mapToProto c), w')).
Proof.
  split; [|split].
  - intros S repo id s Hparse.
    unfold usecase.customerUseCase.GetCustomer. rewrite Hparse. reflexivity.
  - intros S repo id uid s s' Hparse Hget.
    unfold usecase.customerUseCase.GetCustomer. rewrite Hparse.
    unfold bind. rewrite Hget. reflexivity.
  - intros ctx id c w Hnd Hin Hparse Hconn.
    pose proof (connected_hd _ _ Hconn) as H1.
    assert (Hget : usecase.customerUseCase.GetCustomer pg id w
                   = (Ok c, unplug (tl (link w)) w)).
    { unfold usecase.customerUseCase.GetCustomer. rewrite Hparse.
      to_statements. rewrite H1. simpl.
      rewrite (find_stored _ c Hnd Hin). reflexivity. }
    exists (unplug (tl (link w)) w). split; [exact Hget|].
    unfold handler.CustomerHandler.GetCustomer, uc. simpl.
    unfold bind. rewrite Hget. reflexivity.
Qed.

Lemma GetCustomer_by_id_witness :
  usecase.customerUseCase.GetCustomer pg "not-an-id" shop
  = (Err (errors_New "invalid customer id"), shop)
  /\ (exists w',
         usecase.customerUseCase.GetCustomer pg
           "99999999-9999-4999-8999-999999999999" shop
         = (Err (errors_New "customer not found"), w'))
  /\ (exists c w',
         MerchantID c = merchant_b
         /\ handler.CustomerHandler.GetCustomer uc as_merchant_a bob_id shop
            = (Ok (handler.mapToProto c), w')).
Proof.
  destruct GetCustomer_by_id as (Hbad & Habsent & Hfound).
  split; [|split].
  - apply Hbad. reflexivity.
  - eexists. eapply Habsent; reflexivity.
  - exists (nth 1 (customers shop) alice).
    destruct (Hfound as_merchant_a bob_id (nth 1 (customers shop) alice) shop)
      as (w' & _ & H).
    + simpl. repeat constructor; simpl; intuition discriminate.
    + simpl. right. left. reflexivity.
    + reflexivity.
    + reflexivity.
    + exists w'. split; [reflexivity | exact H].
Defined.

(** ** Uniqueness of the phone number within a merchant *)

Lemma length_list_ascii_of_string :
  forall s, length (list_ascii_of_string s) = String.length s.
Proof. induction s as [|a s IH]; simpl; congruence. Qed.

Lemma varchar_fits :
  forall n s, (String.length s <= n)%nat -> sql.varchar n s = Some s.
Proof.
  intros n s H. unfold sql.varchar. rewrite length_list_ascii_of_string.
  apply Nat.leb_le in H. rewrite H. reflexivity.
Qed.

Lemma as_row_fits : forall c, fits c -> as_row c = Some c.
Proof.
  intros c (Hn & Hp & He). unfold as_row.
  rewrite (varchar_fits _ _ Hn), (varchar_fits _ _ Hp), (varchar_fits _ _ He).
  destruct c; reflexivity.
Qed.

Lemma existsb_same_key :
  forall row r rows,
    In r rows -> MerchantID r = MerchantID row -> Phone r = Phone row ->
    existsb (sql.same_key row) rows = true.
Proof.
  intros row r rows Hin Hm Hp. apply existsb_exists. exists r.
  split; [exact Hin|]. unfold sql.same_key. rewrite Hm, Hp.
  rewrite uuid_eqb_refl, String.eqb_refl. reflexivity.
Qed.

Lemma existsb_same_key_false :
  forall row rows,
    (forall r, In r rows -> Phone r = Phone row -> MerchantID r <> MerchantID row) ->
    existsb (sql.same_key row) rows = false.
Proof.
  intros row rows H. destruct (existsb (sql.same_key row) rows) eqn:E; [|reflexivity].
  apply existsb_exists in E. destruct E as (r & Hin & Hk).
  unfold sql.same_key in Hk. apply andb_true_iff in Hk. destruct Hk as [Hm Hp].
  apply uuid_eqb_eq in Hm. apply String.eqb_eq in Hp.
  exfalso. apply (H r Hin); congruence.
Qed.

Lemma existsb_has_id_false :
  forall id rows,
    (forall r, In r rows -> ID r <> id) -> existsb (has_id id) rows = false.
Proof.
  intros id rows H. destruct (existsb (has_id id) rows) eqn:E; [|reflexivity].
  apply existsb_exists in E. destruct E as (r & Hin & Hk).
  apply uuid_eqb_eq in Hk. exfalso. exact (H r Hin Hk).
Qed.

(** C7. With the connection up and text that fits the columns, creating
    a customer whose (merchant_id, phone) pair a stored row already has
    fails with the store's unique violation and stores nothing; creating
    one under an identifier not yet in use succeeds as soon as every
    stored row with the same phone number belongs to another merchant,
    and appends the record. The check is the repository's: the use case
    makes none of its own. *)
Theorem CreateCustomer_unique_phone_per_merchant :
  (forall (input r : Customer) (w : World),
      fits input -> connected 1 w ->
      In r (customers w) ->
      MerchantID r = MerchantID input -> Phone r = Phone input ->
      exists w',
        usecase.customerUseCase.CreateCustomer runtime pg input w
        = (Err (pg_Error sql.unique_violation), w')
        /\ customers w' = customers w)
  /\ (forall (input : Customer) (w : World),
         fits input -> connected 1 w ->
         (forall r, In r (customers w) -> ID r <> assigned_id input w) ->
         (forall r, In r (customers w) ->
                    Phone r = Phone input -> MerchantID r <> MerchantID input) ->
         exists c w',
           usecase.customerUseCase.CreateCustomer runtime pg input w = (Ok c, w')
           /\ MerchantID c = MerchantID input /\ Phone c = Phone input
           /\ customers w' = customers w ++ [c]).
Proof.
  split.
  - intros input r w Hfits Hconn Hin Hm Hp.
    pose proof (connected_hd _ _ Hconn) as H1.
    unfold usecase.customerUseCase.CreateCustomer, bind, lift, ret.
    destruct (uuid.eqb (ID input) uuid.Nil); simpl;
      unfold pgRepository.Create, bind, roundtrip; simpl; rewrite H1; simpl;
      (rewrite as_row_fits; [|exact Hfits]); simpl;
      match goal with
      | |- context [existsb (has_id ?i) ?l] => destruct (existsb (has_id i) l)
      end;
      try (eexists; split; reflexivity);
      (erewrite existsb_same_key; [| exact Hin | exact Hm | exact Hp]);
      eexists; split; reflexivity.
  - intros input w Hfits Hconn Hid Hkey.
    pose proof (connected_hd _ _ Hconn) as H1.
    unfold assigned_id in Hid.
    unfold usecase.customerUseCase.CreateCustomer, bind, lift, ret.
    destruct (uuid.eqb (ID input) uuid.Nil); simpl;
      unfold pgRepository.Create, bind, roundtrip; simpl; rewrite H1; simpl;
      (rewrite as_row_fits; [|exact Hfits]); simpl;
      (rewrite existsb_has_id_false; [|exact Hid]);
      (rewrite existsb_same_key_false; [|exact Hkey]);
      eexists; eexists; (split; [reflexivity|]); simpl;
      repeat split; reflexivity.
Qed.

Lemma CreateCustomer_unique_phone_per_merchant_witness :
  (exists w',
      usecase.customerUseCase.CreateCustomer runtime pg alice shop
      = (Err (pg_Error sql.unique_violation), w'))
  /\ (exists c w',
         usecase.customerUseCase.CreateCustomer runtime pg bob shop_a = (Ok c, w')
         /\ map Phone (customers w') = [Phone alice; Phone alice]
         /\ map MerchantID (customers w') = [merchant_a; merchant_b]).
Proof.
  destruct CreateCustomer_unique_phone_per_merchant as [Hdup Hnew].
  split.
  - destruct (Hdup alice (nth 0 (customers shop) bob) shop) as (w' & H & _).
    + unfold fits. simpl. lia.
    + reflexivity.
    + simpl. left. reflexivity.
    + reflexivity.
    + reflexivity.
    + exists w'. exact H.
  - destruct (Hnew bob shop_a) as (c & w' & H & Hm & Hp & Hrows).
    + unfold fits. simpl. lia.
    + reflexivity.
    + intros r Hr. simpl in Hr. destruct Hr as [Hr|[]]. subst r.
      vm_compute. discriminate.
    + intros r Hr _. simpl in Hr. destruct Hr as [Hr|[]]. subst r.
      vm_compute. discriminate.
    + exists c, w'. split; [exact H|]. rewrite Hrows.
      simpl. rewrite Hm, Hp. split; reflexivity.
Defined.

(** ** Profile updates *)

Lemma Forall2_map_same :
  forall (R : Customer -> Customer -> Prop) (f : Customer -> Customer) rows,
    (forall r, R r (f r)) -> Forall2 R rows (map f rows).
Proof.
  intros R f rows H. induction rows as [|r rows IH]; simpl; constructor; auto.
Qed.

(** C4. Whatever the update input (its balance included) and whether the
    call succeeds or not, [UpdateCustomer] leaves every stored row with
    its identifier, merchant, balance and creation time, and every row of
    another identifier untouched. On success the returned record is the
    loaded one with the input's name, phone, email and address and a new
    update time; on failure the table is the one before the call. *)
Theorem UpdateCustomer_frame :
  forall (input : Customer) (w : World),
    let r := fst (usecase.customerUseCase.UpdateCustomer runtime pg input w) in
    let w' := snd (usecase.customerUseCase.UpdateCustomer runtime pg input w) in
    Forall2 (fun old new =>
               ID new = ID old /\ MerchantID new = MerchantID old
               /\ LoyaltyPoints new = LoyaltyPoints old
               /\ CreatedAt new = CreatedAt old
               /\ (if has_id (ID input) old then True else new = old))
            (customers w) (customers w')
    /\ match r with
       | Ok c =>
           exists old,
             In old (customers w) /\ ID old = ID input
             /\ ID c = ID old /\ MerchantID c = MerchantID old
             /\ LoyaltyPoints c = LoyaltyPoints old
             /\ CreatedAt c = CreatedAt old
             /\ Name c = Name input /\ Phone c = Phone input
             /\ Email c = Email input /\ Address c = Address input
             /\ UpdatedAt c = hd 0 (tl (clock w))
             /\ Forall (fun new =>
                          if has_id (ID input) new
                          then Address new = Address input
                               /\ UpdatedAt new = UpdatedAt c
                          else True)
                       (customers w')
       | Err _ => customers w' = customers w
       end.
Proof.
  intros input w r w'. subst r w'.
  assert (Hrefl : Forall2 (fun old new =>
               ID new = ID old /\ MerchantID new = MerchantID old
               /\ LoyaltyPoints new = LoyaltyPoints old
               /\ CreatedAt new = CreatedAt old
               /\ (if has_id (ID input) old then True else new = old))
            (customers w) (customers w)).
  { rewrite <- (map_id (customers w)) at 2. apply Forall2_map_same.
    intros x. destruct (has_id (ID input) x); repeat split; reflexivity. }
  unfold usecase.customerUseCase.UpdateCustomer, bind, lift, ret.
  unfold pg, NewPGRepository. simpl.
  unfold pgRepository.GetByID, bind, roundtrip. simpl.
  destruct (hd false (link w)); simpl; [split; [exact Hrefl | reflexivity]|].
  destruct (find (has_id (ID input)) (customers w)) as [existing|] eqn:Hfind;
    simpl; [|split; [exact Hrefl | reflexivity]].
  apply find_some in Hfind. destruct Hfind as [Hin Hid].
  apply uuid_eqb_eq in Hid.
  unfold pgRepository.Update, bind, lift, roundtrip. simpl.
  destruct (hd false (tl (link w))); simpl; [split; [exact Hrefl | reflexivity]|].
  match goal with
  | |- context [as_row ?x] => destruct (as_row x) as [v|] eqn:Hv
  end; simpl; [|split; [exact Hrefl | reflexivity]].
  match goal with
  | |- context [sql.unique_merchant_phone ?l] =>
      destruct (sql.unique_merchant_phone l)
  end; simpl; [|split; [exact Hrefl | reflexivity]].
  assert (Hv' : Address v = Address input
                /\ UpdatedAt v = hd 0 (tl (clock w))).
  { unfold as_row in Hv. simpl in Hv.
    destruct (sql.varchar 255 (Name input)); try discriminate Hv.
    destruct (sql.varchar 20 (Phone input)); try discriminate Hv.
    destruct (sql.varchar 255 (Email input)); try discriminate Hv.
    injection Hv as Hv. subst v. split; reflexivity. }
  destruct Hv' as [Hva Hvu].
  split.
  - apply Forall2_map_same. intros x. rewrite Hid.
    destruct (has_id (ID input) x); repeat split; reflexivity.
  - exists existing. repeat split; try reflexivity; try assumption.
    apply Forall_forall. intros new Hnew.
    apply in_map_iff in Hnew. destruct Hnew as (x & Hx & _).
    rewrite Hid in Hx.
    destruct (has_id (ID input) x) eqn:E; subst new.
    + unfold has_id in *. simpl. rewrite E. split; assumption.
    + rewrite E. exact I.
Qed.

(** An update that carries a balance of 999 for a customer holding 5. *)
Example UpdateCustomer_ignores_input_balance :
  let w := step shop (OpAddLoyaltyPoints alice_id 5) in
  let input := {| ID := [1; 2; 3; 4; 5; 6; 71; 8; 137; 10; 11; 12; 13; 14; 15; 16];
                  MerchantID := merchant_b; Name := "Alice B.";
                  Phone := "0811000222"; Email := ""; Address := "";
                  LoyaltyPoints := 999; CreatedAt := 7; UpdatedAt := 7 |} in
  option_map (fun c => (Name c, LoyaltyPoints c, MerchantID c, CreatedAt c))
    (match fst (usecase.customerUseCase.UpdateCustomer runtime pg input w) with
     | Ok c => Some c | Err _ => None end)
  = Some ("Alice B."%string, 5, merchant_a, 1000)
  /\ map LoyaltyPoints
       (customers (snd (usecase.customerUseCase.UpdateCustomer runtime pg input w)))
     = [5; 0].
Proof. vm_compute. split; reflexivity. Qed.

(** ** The sign of the balance *)

Lemma step_keeps_balances_non_negative :
  forall (w : World) (op : Op),
    awards_only op -> balances_non_negative w -> balances_non_negative (step w op).
Proof.
  intros w op Hop Hw. unfold balances_non_negative in *.
  destruct op as [input|id|m page pageSize search|input|id|id points];
    unfold step, uc; simpl.
  - (* CreateCustomer *)
    unfold usecase.customerUseCase.CreateCustomer, bind, lift, ret.
    destruct (uuid.eqb (ID input) uuid.Nil); simpl;
      unfold pgRepository.Create, bind, roundtrip; simpl;
      (destruct (hd false (link w)); simpl; [exact Hw|]);
      match goal with
      | |- context [as_row ?x] => destruct (as_row x) as [row|] eqn:Hrow
      end; simpl; try exact Hw;
      (destruct (existsb (has_id (ID row)) (customers w)); simpl; [exact Hw|]);
      (destruct (existsb (sql.same_key row) (customers w)); simpl; [exact Hw|]);
      apply Forall_app; (split; [exact Hw|]);
      (apply Forall_cons; [|apply Forall_nil]);
      unfold as_row in Hrow; simpl in Hrow;
      destruct (sql.varchar 255 (Name input)); try discriminate Hrow;
      destruct (sql.varchar 20 (Phone input)); try discriminate Hrow;
      destruct (sql.varchar 255 (Email input)); try discriminate Hrow;
      injection Hrow as Hrow; subst row; simpl; lia.
  - (* GetCustomer *)
    unfold usecase.customerUseCase.GetCustomer.
    destruct (uuid.Parse id) as [uid|]; [|exact Hw].
    unfold pg, NewPGRepository. simpl.
    unfold pgRepository.GetByID, bind, roundtrip. simpl.
    destruct (hd false (link w)); simpl; [exact Hw|].
    destruct (find (has_id uid) (customers w)); exact Hw.
  - (* ListCustomers *)
    unfold usecase.customerUseCase.ListCustomers.
    destruct (uuid.Parse m) as [mid|]; [|exact Hw].
    unfold pg, NewPGRepository. simpl.
    unfold pgRepository.List, bind, roundtrip, ret. simpl.
    destruct (hd false (link w)); simpl; [exact Hw|].
    match goal with |- context [if ?b then _ else _] => destruct b end;
      simpl; [exact Hw|].
    match goal with |- context [if ?b then _ else _] => destruct b end;
      simpl; [exact Hw|].
    destruct (hd false (tl (link w))); exact Hw.
  - (* UpdateCustomer *)
    unfold usecase.customerUseCase.UpdateCustomer, bind, lift, ret.
    unfold pg, NewPGRepository. simpl.
    unfold pgRepository.GetByID, bind, roundtrip. simpl.
    destruct (hd false (link w)); simpl; [exact Hw|].
    destruct (find (has_id (ID input)) (customers w)) as [existing|];
      simpl; [|exact Hw].
    unfold pgRepository.Update, bind, lift, roundtrip. simpl.
    destruct (hd false (tl (link w))); simpl; [exact Hw|].
    match goal with
    | |- context [as_row ?x] => destruct (as_row x) as [v|]
    end; simpl; [|exact Hw].
    match goal with
    | |- context [sql.unique_merchant_phone ?l] =>
        destruct (sql.unique_merchant_phone l)
    end; simpl; [|exact Hw].
    apply Forall_forall. intros c Hc. apply in_map_iff in Hc.
    destruct Hc as (r & Hr & Hin). rewrite Forall_forall in Hw.
    specialize (Hw r Hin).
    destruct (has_id (ID existing) r); subst c; simpl; lia.
  - (* DeleteCustomer *)
    unfold usecase.customerUseCase.DeleteCustomer.
    destruct (uuid.Parse id) as [uid|]; [|exact Hw].
    unfold pg, NewPGRepository. simpl.
    unfold pgRepository.Delete, bind, roundtrip. simpl.
    destruct (hd false (link w)); simpl; [exact Hw|].
    apply Forall_forall. intros c Hc. apply filter_In in Hc.
    rewrite Forall_forall in Hw. apply Hw. apply Hc.
  - (* AddLoyaltyPoints *)
    simpl in Hop.
    unfold usecase.customerUseCase.AddLoyaltyPoints.
    destruct (uuid.Parse id) as [uid|]; [|exact Hw].
    unfold pg, NewPGRepository. simpl.
    unfold pgRepository.AddLoyaltyPoints, pgRepository.GetByID, bind, lift, roundtrip.
    simpl.
    destruct (hd false (link w)); simpl; [exact Hw|].
    match goal with
    | |- context [forallb ?p ?l] => destruct (forallb p l)
    end; simpl; [|exact Hw].
    assert (Hnew : Forall (fun c => 0 <= LoyaltyPoints c)
              (map (fun r =>
                      if has_id uid r
                      then {| ID := ID r; MerchantID := MerchantID r;
                              Name := Name r; Phone := Phone r;
                              Email := Email r; Address := Address r;
                              LoyaltyPoints := LoyaltyPoints r + points;
                              CreatedAt := CreatedAt r;
                              UpdatedAt := hd 0 (clock w) |}
                      else r) (customers w))).
    { apply Forall_forall. intros c Hc. apply in_map_iff in Hc.
      destruct Hc as (r & Hr & Hin). rewrite Forall_forall in Hw.
      specialize (Hw r Hin). destruct (has_id uid r); subst c; simpl; lia. }
    destruct (hd false (tl (link w))); simpl; [exact Hnew|].
    match goal with
    | |- context [find ?p ?l] => destruct (find p l)
    end; exact Hnew.
Qed.

(** C5, as the code has it. Starting from an empty table, after any
    sequence of calls of the domain service in which every
    [AddLoyaltyPoints] call carries points >= 0, every stored balance is
    non-negative. *)
Theorem balances_stay_non_negative :
  forall (ops : list Op) (w : World),
    customers w = [] ->
    Forall awards_only ops ->
    balances_non_negative (run ops w).
Proof.
  intros ops w Hempty Hops.
  assert (Hw : balances_non_negative w).
  { unfold balances_non_negative. rewrite Hempty. constructor. }
  clear Hempty. revert w Hw. unfold run.
  induction Hops as [|op ops Hop _ IH]; intros w Hw; simpl; [exact Hw|].
  apply IH. apply step_keeps_balances_non_negative; assumption.
Qed.

Lemma balances_stay_non_negative_witness :
  balances_non_negative
    (run [OpCreateCustomer alice; OpAddLoyaltyPoints alice_id 12;
          OpUpdateCustomer bob; OpAddLoyaltyPoints alice_id 0;
          OpDeleteCustomer bob_id] fresh)
  /\ map LoyaltyPoints
       (customers (run [OpCreateCustomer alice; OpAddLoyaltyPoints alice_id 12] fresh))
     = [12].
Proof.
  split.
  - apply balances_stay_non_negative.
    + reflexivity.
    + repeat constructor; simpl; lia.
  - reflexivity.
Defined.

(** C5 as written fails: the points of an [AddLoyaltyPoints] request are
    a signed integer that nothing checks on the way to the store, so a
    negative award leaves a negative balance. *)
Lemma negative_award_gives_negative_balance :
  fst (handler.CustomerHandler.AddLoyaltyPoints uc as_merchant_a alice_id (-5) shop_a)
  = Ok (-5)
  /\ map LoyaltyPoints
       (customers (run [OpCreateCustomer alice; OpAddLoyaltyPoints alice_id (-5)] fresh))
     = [-5]
  /\ ~ balances_non_negative
         (run [OpCreateCustomer alice; OpAddLoyaltyPoints alice_id (-5)] fresh).
Proof.
  split; [reflexivity|]. split; [reflexivity|].
  intros H. unfold balances_non_negative in H.
  vm_compute in H. inversion H as [|c l Hc Hl]; subst.
  apply Hc. reflexivity.
Qed.

(** ** Loyalty accrual from order events *)

Lemma wrap_32_range : forall z, MinInt32 <= wrap 32 z <= MaxInt32.
Proof.
  intros z. unfold wrap, MinInt32, MaxInt32.
  pose proof (Z.mod_pos_bound (z + 2 ^ (32 - 1)) (2 ^ 32) eq_refl) as H.
  change (2 ^ (32 - 1)) with 2147483648 in *.
  change (2 ^ 32) with 4294967296 in *. lia.
Qed.

Lemma int32_of_float64_range :
  forall overflow x,
    MinInt32 <= listener.int32_of_float64 overflow x <= MaxInt32.
Proof.
  intros overflow x. unfold listener.int32_of_float64.
  destruct (listener.float64_trunc x) as [z|]; [|apply wrap_32_range].
  destruct (in_int32 z) eqn:E; [|apply wrap_32_range].
  unfold in_int32 in E. apply andb_true_iff in E. destruct E as [E1 E2].
  apply Z.leb_le in E1. apply Z.leb_le in E2. lia.
Qed.

(** C1, as the code has it. For every message, [processMessage] makes no
    call when the payload does not decode, when the event type is not
    "OrderCreated", or when the customer identifier is null or empty.
    Otherwise, with n the integer [math.Floor(total_amount / 10.0)]
    stands for: if n is between 1 and the largest 32-bit integer, it
    makes exactly one [AddLoyaltyPoints] call, for that customer with n
    points; if n is between the smallest 32-bit integer and 0, it makes
    none. *)
Theorem processMessage_awards :
  forall (json_Unmarshal : list Z -> option listener.OrderCreatedEvent)
         (overflow : listener.float64 -> Z) (value : list Z),
    let calls :=
      listener.CustomerListener.processMessage recorder json_Unmarshal overflow value [] in
    match json_Unmarshal value with
    | None => calls = []
    | Some event =>
        if String.eqb (listener.EventType event) "OrderCreated" then
          match listener.CustomerID (listener.Payload event) with
          | None => calls = []
          | Some customerID =>
              if String.eqb customerID "" then (calls = [])
              else
                match award (listener.TotalAmount (listener.Payload event)) with
                | Some n =>
                    if (1 <=? n) && (n <=? MaxInt32) then (calls = [(customerID, n)])
                    else if (MinInt32 <=? n) && (n <=? 0) then (calls = [])
                    else True
                | None => True
                end
          end
        else calls = []
    end.
Proof.
  intros json_Unmarshal overflow value calls. subst calls.
  unfold listener.CustomerListener.processMessage.
  destruct (json_Unmarshal value) as [event|]; [|reflexivity].
  destruct (String.eqb (listener.EventType event) "OrderCreated"); simpl;
    [|reflexivity].
  destruct (listener.CustomerID (listener.Payload event)) as [customerID|];
    [|reflexivity].
  destruct (String.eqb customerID ""); [reflexivity|].
  unfold award, listener.int32_of_float64.
  destruct (listener.float64_trunc _) as [n|]; [|exact I].
  destruct ((1 <=? n) && (n <=? MaxInt32)) eqn:Hpos.
  - apply andb_true_iff in Hpos. destruct Hpos as [H1 H2].
    apply Z.leb_le in H1. apply Z.leb_le in H2.
    assert (Hin : in_int32 n = true).
    { unfold in_int32. apply andb_true_iff.
      split; apply Z.leb_le; unfold MinInt32 in *; lia. }
    rewrite Hin.
    assert (Hn : (0 <? n) = true) by (apply Z.ltb_lt; lia).
    rewrite Hn. reflexivity.
  - destruct ((MinInt32 <=? n) && (n <=? 0)) eqn:Hneg; [|exact I].
    apply andb_true_iff in Hneg. destruct Hneg as [H1 H2].
    apply Z.leb_le in H1. apply Z.leb_le in H2.
    assert (Hin : in_int32 n = true).
    { unfold in_int32. apply andb_true_iff.
      split; apply Z.leb_le; unfold MaxInt32 in *; lia. }
    rewrite Hin.
    assert (Hn : (0 <? n) = false) by (apply Z.ltb_ge; lia).
    rewrite Hn. reflexivity.
Qed.

(** The examples of the specification. *)
Example processMessage_examples :
  let calls event :=
    listener.CustomerListener.processMessage recorder (fun _ => event) amd64 [] [] in
  calls (Some (order "OrderCreated" (Some alice_id) 25)) = [(alice_id, 2)]
  /\ calls (Some (order "OrderCreated" (Some alice_id) 9)) = []
  /\ calls (Some (order "OrderCreated" None 25)) = []
  /\ calls (Some (order "OrderCreated" (Some ""%string) 25)) = []
  /\ calls (Some (order "OrderCancelled" (Some alice_id) 25)) = []
  /\ calls None = [].
Proof. vm_compute. repeat split; reflexivity. Qed.

(** C1 as written fails: the award is a 32-bit integer. An order of
    30,000,000,000 gives math.Floor(total_amount / 10.0) = 3,000,000,000,
    which is positive, and no conversion to int32 yields it: no call with
    that award is made on any platform, and none at all on amd64. *)
Lemma processMessage_large_total :
  award (listener.float64_of_Z 30000000000) = Some 3000000000
  /\ listener.CustomerListener.processMessage recorder
       (fun _ => Some (order "OrderCreated" (Some alice_id) 30000000000))
       amd64 [] []
     = []
  /\ forall overflow,
       listener.CustomerListener.processMessage recorder
         (fun _ => Some (order "OrderCreated" (Some alice_id) 30000000000))
         overflow [] []
       <> [(alice_id, 3000000000)].
Proof.
  split; [vm_compute; reflexivity|]. split; [vm_compute; reflexivity|].
  intros overflow H.
  unfold listener.CustomerListener.processMessage in H.
  simpl listener.EventType in H. simpl listener.Payload in H.
  simpl listener.CustomerID in H. simpl listener.TotalAmount in H.
  change (negb (String.eqb "OrderCreated" "OrderCreated")) with false in H.
  change (String.eqb alice_id "") with false in H.
  cbv iota in H.
  match type of H with
  | context [listener.int32_of_float64 ?o ?x] =>
      pose proof (int32_of_float64_range o x) as Hr;
      remember (listener.int32_of_float64 o x) as points eqn:Hpoints
  end.
  clear Hpoints. destruct (0 <? points).
  - unfold recorder in H. simpl in H. injection H as H.
    unfold MaxInt32 in Hr. lia.
  - discriminate H.
Qed.

(** ** Listing and searching *)












(** *** ORDER BY created_at DESC *)

Lemma insert_desc_Permutation :
  forall c l, Permutation (sql.insert_desc c l) (c :: l).
Proof.
  intros c l. induction l as [|x l IH]; simpl; [apply Permutation_refl|].
  destruct (CreatedAt x <=? CreatedAt c); [apply Permutation_refl|].
  apply perm_trans with (x :: c :: l); [apply perm_skip; exact IH | apply perm_swap].
Qed.

Lemma order_by_Permutation :
  forall l, Permutation (sql.order_by_created_at_desc l) l.
Proof.
  induction l as [|c l IH]; simpl; [apply perm_nil|].
  apply perm_trans with (c :: sql.order_by_created_at_desc l);
    [apply insert_desc_Permutation | apply perm_skip; exact IH].
Qed.





Lemma In_page :
  forall (A : Type) (n k : nat) (l : list A) x,
    In x (firstn n (skipn k l)) -> In x l.
Proof.
  intros A n k l x H.
  rewrite <- (firstn_skipn k l). apply in_or_app. right.
  rewrite <- (firstn_skipn n (skipn k l)). apply in_or_app. left. exact H.
Qed.

Lemma wrap_64_small :
  forall z, - MaxInt64 - 1 <= z <= MaxInt64 -> wrap 64 z = z.
Proof.
  intros z H. unfold wrap, MaxInt64 in *.
  change (2 ^ (64 - 1)) with 9223372036854775808.
  change (2 ^ 64) with 18446744073709551616.
  rewrite Z.mod_small; lia.
Qed.




(** ** The primary key *)

Lemma NoDup_map_filter :
  forall (p : Customer -> bool) rows,
    NoDup (map ID rows) -> NoDup (map ID (filter p rows)).
Proof.
  intros p rows H. induction rows as [|r rows IH]; simpl in *; [exact H|].
  inversion H as [|x l Hnotin Hnd]; subst.
  destruct (p r); simpl; [constructor|]; auto.
  intros Hin. apply Hnotin. apply in_map_iff in Hin.
  destruct Hin as (c & Hc & Hin). apply filter_In in Hin.
  apply in_map_iff. exists c. split; [exact Hc | apply Hin].
Qed.

Lemma NoDup_snoc :
  forall (l : list uuid.UUID) x, NoDup l -> ~ In x l -> NoDup (l ++ [x]).
Proof.
  intros l x Hl Hx. induction Hl as [|y l Hy Hl IH]; simpl.
  - constructor; [intros [] | constructor].
  - constructor.
    + intros Hin. apply in_app_or in Hin. destruct Hin as [Hin|[Hin|[]]].
      * exact (Hy Hin).
      * apply Hx. left. symmetry. exact Hin.
    + apply IH. intros Hin. apply Hx. right. exact Hin.
Qed.

Lemma map_ID_same :
  forall (f : Customer -> Customer) rows,
    (forall r, ID (f r) = ID r) -> map ID (map f rows) = map ID rows.
Proof.
  intros f rows H. rewrite map_map. apply map_ext. exact H.
Qed.

(** No call of the domain service breaks the primary key, so the tables
    reachable from an empty one have pairwise distinct identifiers. *)
Lemma step_keeps_primary_key :
  forall (w : World) (op : Op),
    NoDup (map ID (customers w)) -> NoDup (map ID (customers (step w op))).
Proof.
  intros w op Hw.
  destruct op as [input|id|m page pageSize search|input|id|id points];
    unfold step, uc; simpl.
  - unfold usecase.customerUseCase.CreateCustomer, bind, lift, ret.
    destruct (uuid.eqb (ID input) uuid.Nil); simpl;
      unfold pgRepository.Create, bind, roundtrip; simpl;
      (destruct (hd false (link w)); simpl; [exact Hw|]);
      match goal with
      | |- context [as_row ?x] => destruct (as_row x) as [row|]
      end; simpl; try exact Hw;
      (destruct (existsb (has_id (ID row)) (customers w)) eqn:Hex;
       simpl; [exact Hw|]);
      (destruct (existsb (sql.same_key row) (customers w)); simpl; [exact Hw|]);
      rewrite map_app; simpl; (apply NoDup_snoc; [exact Hw|]);
      intros Hin; apply in_map_iff in Hin;
      destruct Hin as (c & Hc & Hin);
      assert (Htrue : existsb (has_id (ID row)) (customers w) = true)
        by (apply existsb_exists; exists c; split;
            [exact Hin | apply uuid_eqb_eq; exact Hc]);
      congruence.
  - unfold usecase.customerUseCase.GetCustomer.
    destruct (uuid.Parse id) as [uid|]; [|exact Hw].
    unfold pg, NewPGRepository. simpl.
    unfold pgRepository.GetByID, bind, roundtrip. simpl.
    destruct (hd false (link w)); simpl; [exact Hw|].
    destruct (find (has_id uid) (customers w)); exact Hw.
  - unfold usecase.customerUseCase.ListCustomers.
    destruct (uuid.Parse m) as [mid|]; [|exact Hw].
    unfold pg, NewPGRepository. simpl.
    unfold pgRepository.List, bind, roundtrip, ret. simpl.
    destruct (hd false (link w)); simpl; [exact Hw|].
    match goal with |- context [if ?b then _ else _] => destruct b end;
      simpl; [exact Hw|].
    match goal with |- context [if ?b then _ else _] => destruct b end;
      simpl; [exact Hw|].
    destruct (hd false (tl (link w))); exact Hw.
  - unfold usecase.customerUseCase.UpdateCustomer, bind, lift, ret.
    unfold pg, NewPGRepository. simpl.
    unfold pgRepository.GetByID, bind, roundtrip. simpl.
    destruct (hd false (link w)); simpl; [exact Hw|].
    destruct (find (has_id (ID input)) (customers w)) as [existing|];
      simpl; [|exact Hw].
    unfold pgRepository.Update, bind, lift, roundtrip. simpl.
    destruct (hd false (tl (link w))); simpl; [exact Hw|].
    match goal with
    | |- context [as_row ?x] => destruct (as_row x) as [v|]
    end; simpl; [|exact Hw].
    match goal with
    | |- context [sql.unique_merchant_phone ?l] =>
        destruct (sql.unique_merchant_phone l)
    end; simpl; [|exact Hw].
    rewrite map_ID_same; [exact Hw|].
    intros r. destruct (has_id (ID existing) r); reflexivity.
  - unfold usecase.customerUseCase.DeleteCustomer.
    destruct (uuid.Parse id) as [uid|]; [|exact Hw].
    unfold pg, NewPGRepository. simpl.
    unfold pgRepository.Delete, bind, roundtrip. simpl.
    destruct (hd false (link w)); simpl; [exact Hw|].
    apply NoDup_map_filter. exact Hw.
  - unfold usecase.customerUseCase.AddLoyaltyPoints.
    destruct (uuid.Parse id) as [uid|]; [|exact Hw].
    unfold pg, NewPGRepository. simpl.
    unfold pgRepository.AddLoyaltyPoints, pgRepository.GetByID, bind, lift, roundtrip.
    simpl.
    destruct (hd false (link w)); simpl; [exact Hw|].
    match goal with
    | |- context [forallb ?p ?l] => destruct (forallb p l)
    end; simpl; [|exact Hw].
    assert (Hnew : forall now,
               NoDup (map ID
                 (map (fun r =>
                         if has_id uid r
                         then {| ID := ID r; MerchantID := MerchantID r;
                                 Name := Name r; Phone := Phone r;
                                 Email := Email r; Address := Address r;
                                 LoyaltyPoints := LoyaltyPoints r + points;
                                 CreatedAt := CreatedAt r; UpdatedAt := now |}
                         else r) (customers w)))).
    { intros now. rewrite map_ID_same; [exact Hw|].
      intros r. destruct (has_id uid r); reflexivity. }
    destruct (hd false (tl (link w))); simpl; [apply Hnew|].
    match goal with
    | |- context [find ?p ?l] => destruct (find p l)
    end; apply Hnew.
Qed.

Lemma reachable_primary_key :
  forall (ops : list Op) (w : World),
    customers w = [] -> NoDup (map ID (customers (run ops w))).
Proof.
  intros ops w Hempty.
  assert (Hw : NoDup (map ID (customers w))) by (rewrite Hempty; constructor).
  clear Hempty. revert w Hw. unfold run.
  induction ops as [|op ops IH]; intros w Hw; simpl; [exact Hw|].
  apply IH. apply step_keeps_primary_key. exact Hw.
Qed.

(** * Further properties of the code *)

(** ** The constraints of the table *)

Lemma same_key_iff :
  forall a b, sql.same_key a b = true <-> merchant_phone a = merchant_phone b.
Proof.
  intros a b. unfold sql.same_key, merchant_phone.
  rewrite andb_true_iff, uuid_eqb_eq, String.eqb_eq. split.
  - intros [H1 H2]. congruence.
  - intros H. injection H as H1 H2. split; assumption.
Qed.

Lemma existsb_same_key_iff :
  forall r rows,
    existsb (sql.same_key r) rows = true
    <-> In (merchant_phone r) (map merchant_phone rows).
Proof.
  intros r rows. rewrite existsb_exists, in_map_iff. split.
  - intros (x & Hin & Hk). exists x. apply same_key_iff in Hk.
    split; [symmetry; exact Hk | exact Hin].
  - intros (x & Hk & Hin). exists x. split; [exact Hin|].
    apply same_key_iff. symmetry. exact Hk.
Qed.

Lemma unique_merchant_phone_NoDup :
  forall rows,
    sql.unique_merchant_phone rows = true <-> NoDup (map merchant_phone rows).
Proof.
  induction rows as [|r rows IH]; simpl.
  - split; [constructor | reflexivity].
  - rewrite andb_true_iff, negb_true_iff, IH. split.
    + intros [Hr Hrows]. constructor; [|exact Hrows].
      intros Hin. apply existsb_same_key_iff in Hin. congruence.
    + intros H. inversion H as [|x l Hnotin Hnd]; subst. split; [|exact Hnd].
      destruct (existsb (sql.same_key r) rows) eqn:E; [|reflexivity].
      apply existsb_same_key_iff in E. contradiction.
Qed.

Lemma NoDup_snoc_key :
  forall (l : list (uuid.UUID * string)) x,
    NoDup l -> ~ In x l -> NoDup (l ++ [x]).
Proof.
  intros l x Hl Hx. induction Hl as [|y l Hy Hl IH]; simpl.
  - constructor; [intros [] | constructor].
  - constructor.
    + intros Hin. apply in_app_or in Hin. destruct Hin as [Hin|[Hin|[]]].
      * exact (Hy Hin).
      * apply Hx. left. symmetry. exact Hin.
    + apply IH. intros Hin. apply Hx. right. exact Hin.
Qed.

Lemma NoDup_key_filter :
  forall (p : Customer -> bool) rows,
    NoDup (map merchant_phone rows) -> NoDup (map merchant_phone (filter p rows)).
Proof.
  intros p rows H. induction rows as [|r rows IH]; simpl in *; [exact H|].
  inversion H as [|x l Hnotin Hnd]; subst.
  destruct (p r); simpl; [constructor|]; auto.
  intros Hin. apply Hnotin. apply in_map_iff in Hin.
  destruct Hin as (c & Hc & Hin). apply filter_In in Hin.
  apply in_map_iff. exists c. split; [exact Hc | apply Hin].
Qed.

Lemma as_row_columns :
  forall c row,
    as_row c = Some row ->
    ID row = ID c /\ MerchantID row = MerchantID c
    /\ LoyaltyPoints row = LoyaltyPoints c
    /\ CreatedAt row = CreatedAt c /\ UpdatedAt row = UpdatedAt c
    /\ Address row = Address c
    /\ sql.varchar 255 (Name c) = Some (Name row)
    /\ sql.varchar 20 (Phone c) = Some (Phone row)
    /\ sql.varchar 255 (Email c) = Some (Email row).
Proof.
  intros c row H. unfold as_row in H.
  destruct (sql.varchar 255 (Name c)); try discriminate H.
  destruct (sql.varchar 20 (Phone c)); try discriminate H.
  destruct (sql.varchar 255 (Email c)); try discriminate H.
  injection H as H. subst row. simpl. repeat split; reflexivity.
Qed.

Lemma step_keeps_unique_phone :
  forall (w : World) (op : Op),
    NoDup (map merchant_phone (customers w)) ->
    NoDup (map merchant_phone (customers (step w op))).
Proof.
  intros w op Hw.
  destruct op as [input|id|m page pageSize search|input|id|id points];
    unfold step, uc; simpl.
  - unfold usecase.customerUseCase.CreateCustomer, bind, lift, ret.
    destruct (uuid.eqb (ID input) uuid.Nil); simpl;
      unfold pgRepository.Create, bind, roundtrip; simpl;
      (destruct (hd false (link w)); simpl; [exact Hw|]);
      match goal with
      | |- context [as_row ?x] => destruct (as_row x) as [row|]
      end; simpl; try exact Hw;
      (destruct (existsb (has_id (ID row)) (customers w)); simpl; [exact Hw|]);
      (destruct (existsb (sql.same_key row) (customers w)) eqn:Hex;
       simpl; [exact Hw|]);
      rewrite map_app; simpl; (apply NoDup_snoc_key; [exact Hw|]);
      intros Hin; apply existsb_same_key_iff in Hin; congruence.
  - unfold usecase.customerUseCase.GetCustomer.
    destruct (uuid.Parse id) as [uid|]; [|exact Hw].
    to_statements.
    destruct (hd false (link w)); simpl; [exact Hw|].
    destruct (find (has_id uid) (customers w)); exact Hw.
  - unfold usecase.customerUseCase.ListCustomers.
    destruct (uuid.Parse m) as [mid|]; [|exact Hw].
    to_statements.
    destruct (hd false (link w)); simpl; [exact Hw|].
    match goal with |- context [if ?b then _ else _] => destruct b end;
      simpl; [exact Hw|].
    match goal with |- context [if ?b then _ else _] => destruct b end;
      simpl; [exact Hw|].
    destruct (hd false (tl (link w))); exact Hw.
  - unfold usecase.customerUseCase.UpdateCustomer, bind, lift, ret.
    to_statements.
    destruct (hd false (link w)); simpl; [exact Hw|].
    destruct (find (has_id (ID input)) (customers w)) as [existing|];
      simpl; [|exact Hw].
    destruct (hd false (tl (link w))); simpl; [exact Hw|].
    match goal with
    | |- context [as_row ?x] => destruct (as_row x) as [v|]
    end; simpl; [|exact Hw].
    match goal with
    | |- context [sql.unique_merchant_phone ?l] =>
        destruct (sql.unique_merchant_phone l) eqn:Hu
    end; simpl; [|exact Hw].
    apply unique_merchant_phone_NoDup. exact Hu.
  - unfold usecase.customerUseCase.DeleteCustomer.
    destruct (uuid.Parse id) as [uid|]; [|exact Hw].
    to_statements.
    destruct (hd false (link w)); simpl; [exact Hw|].
    apply NoDup_key_filter. exact Hw.
  - unfold usecase.customerUseCase.AddLoyaltyPoints.
    destruct (uuid.Parse id) as [uid|]; [|exact Hw].
    to_statements.
    destruct (hd false (link w)); simpl; [exact Hw|].
    match goal with
    | |- context [forallb ?p ?l] => destruct (forallb p l)
    end; simpl; [|exact Hw].
    assert (Hnew : forall now,
               NoDup (map merchant_phone
                 (map (fun r =>
                         if has_id uid r
                         then {| ID := ID r; MerchantID := MerchantID r;
                                 Name := Name r; Phone := Phone r;
                                 Email := Email r; Address := Address r;
                                 LoyaltyPoints := LoyaltyPoints r + points;
                                 CreatedAt := CreatedAt r; UpdatedAt := now |}
                         else r) (customers w)))).
    { intros now. rewrite map_map.
      rewrite (map_ext _ merchant_phone); [exact Hw|].
      intros r. destruct (has_id uid r); reflexivity. }
    destruct (hd false (tl (link w))); simpl; [apply Hnew|].
    match goal with
    | |- context [find ?p ?l] => destruct (find p l)
    end; apply Hnew.
Qed.

(** X1. The primary key and UNIQUE(merchant_id, phone) hold in every table
    the domain service can reach from an empty one: identifiers are
    pairwise distinct, and so are the (merchant, phone) pairs. *)
Theorem reachable_tables_keep_their_constraints :
  forall (ops : list Op) (w : World),
    customers w = [] ->
    NoDup (map ID (customers (run ops w)))
    /\ NoDup (map merchant_phone (customers (run ops w))).
Proof.
  intros ops w Hempty. split; [apply reachable_primary_key; exact Hempty|].
  assert (Hw : NoDup (map merchant_phone (customers w)))
    by (rewrite Hempty; constructor).
  clear Hempty. revert w Hw. unfold run.
  induction ops as [|op ops IH]; intros w Hw; simpl; [exact Hw|].
  apply IH. apply step_keeps_unique_phone. exact Hw.
Qed.

Lemma reachable_tables_keep_their_constraints_witness :
  NoDup (map ID (customers shop))
  /\ NoDup (map merchant_phone (customers shop)).
Proof.
  exact (reachable_tables_keep_their_constraints
           [OpCreateCustomer alice; OpCreateCustomer bob] fresh eq_refl).
Defined.

(** ** What a call can do to the table *)

Lemma existsb_has_id_iff :
  forall id rows, existsb (has_id id) rows = true <-> In id (map ID rows).
Proof.
  intros id rows. rewrite existsb_exists, in_map_iff. unfold has_id.
  split; intros (x & H1 & H2); exists x.
  - apply uuid_eqb_eq in H2. split; assumption.
  - split; [exact H2 | apply uuid_eqb_eq; exact H1].
Qed.

Lemma step_effect :
  forall (w : World) (op : Op), effect (customers w) op (customers (step w op)).
Proof.
  intros w op.
  destruct op as [input|id|m page pageSize search|input|id|id points];
    unfold step, uc; simpl.
  - unfold usecase.customerUseCase.CreateCustomer, bind, lift, ret.
    destruct (uuid.eqb (ID input) uuid.Nil); simpl;
      unfold pgRepository.Create, bind, roundtrip; simpl;
      (destruct (hd false (link w)); simpl; [apply effect_none|]);
      match goal with
      | |- context [as_row ?x] => destruct (as_row x) as [row|] eqn:Hrow
      end; simpl; try apply effect_none;
      (destruct (existsb (has_id (ID row)) (customers w)) eqn:Hid;
       simpl; [apply effect_none|]);
      (destruct (existsb (sql.same_key row) (customers w)) eqn:Hkey;
       simpl; [apply effect_none|]);
      apply as_row_columns in Hrow; simpl in Hrow;
      destruct Hrow as (_ & Hm & Hlp & _ & _ & Ha & Hn & Hp & He);
      (apply effect_insert; try assumption;
       [ intros Hin; apply existsb_has_id_iff in Hin; congruence
       | intros Hin; apply existsb_same_key_iff in Hin; congruence ]).
  - unfold usecase.customerUseCase.GetCustomer.
    destruct (uuid.Parse id) as [uid|]; [|apply effect_none].
    to_statements.
    destruct (hd false (link w)); simpl; [apply effect_none|].
    destruct (find (has_id uid) (customers w)); apply effect_none.
  - unfold usecase.customerUseCase.ListCustomers.
    destruct (uuid.Parse m) as [mid|]; [|apply effect_none].
    to_statements.
    destruct (hd false (link w)); simpl; [apply effect_none|].
    match goal with |- context [if ?b then _ else _] => destruct b end;
      simpl; [apply effect_none|].
    match goal with |- context [if ?b then _ else _] => destruct b end;
      simpl; [apply effect_none|].
    destruct (hd false (tl (link w))); apply effect_none.
  - unfold usecase.customerUseCase.UpdateCustomer, bind, lift, ret.
    to_statements.
    destruct (hd false (link w)); simpl; [apply effect_none|].
    destruct (find (has_id (ID input)) (customers w)) as [existing|] eqn:Hfind;
      simpl; [|apply effect_none].
    apply find_some in Hfind. destruct Hfind as [_ Hid].
    apply uuid_eqb_eq in Hid.
    destruct (hd false (tl (link w))); simpl; [apply effect_none|].
    match goal with
    | |- context [as_row ?x] => destruct (as_row x) as [v|] eqn:Hv
    end; simpl; [|apply effect_none].
    match goal with
    | |- context [sql.unique_merchant_phone ?l] =>
        destruct (sql.unique_merchant_phone l)
    end; simpl; [|apply effect_none].
    apply as_row_columns in Hv. simpl in Hv.
    destruct Hv as (_ & _ & _ & _ & Hu & Ha & Hn & Hp & He).
    rewrite Hid, Ha, Hu. apply effect_update; assumption.
  - unfold usecase.customerUseCase.DeleteCustomer.
    destruct (uuid.Parse id) as [uid|] eqn:Hparse; [|apply effect_none].
    to_statements.
    destruct (hd false (link w)); simpl; [apply effect_none|].
    apply (effect_delete _ id uid Hparse).
  - unfold usecase.customerUseCase.AddLoyaltyPoints.
    destruct (uuid.Parse id) as [uid|] eqn:Hparse; [|apply effect_none].
    to_statements.
    destruct (hd false (link w)); simpl; [apply effect_none|].
    match goal with
    | |- context [forallb ?p ?l] => destruct (forallb p l) eqn:Hall
    end; simpl; [|apply effect_none].
    assert (Hrange : forall r, In r (customers w) -> ID r = uid ->
                               in_int32 (LoyaltyPoints r + points) = true).
    { intros r Hin Hr. rewrite forallb_forall in Hall.
      specialize (Hall r Hin). unfold has_id in Hall.
      apply uuid_eqb_eq in Hr. rewrite Hr in Hall. exact Hall. }
    destruct (hd false (tl (link w))); simpl;
      [apply (effect_increment _ id uid points _ Hparse Hrange)|].
    match goal with
    | |- context [find ?p ?l] => destruct (find p l)
    end; apply (effect_increment _ id uid points _ Hparse Hrange).
Qed.

(** X2. No call re-assigns what identifies a customer. After any one call of
    the domain service, every row of the table either stems from a row
    that was there before, with the same identifier, merchant and
    creation time, or is the row a [CreateCustomer] call has just
    inserted, under an identifier that was not in use, for the merchant
    of its input and with a balance of zero. *)
Theorem calls_keep_identity :
  forall (w : World) (op : Op) (r' : Customer),
    In r' (customers (step w op)) ->
    (exists r, In r (customers w)
               /\ ID r' = ID r /\ MerchantID r' = MerchantID r
               /\ CreatedAt r' = CreatedAt r)
    \/ (exists input, op = OpCreateCustomer input
                      /\ ~ In (ID r') (map ID (customers w))
                      /\ MerchantID r' = MerchantID input
                      /\ LoyaltyPoints r' = 0).
Proof.
  intros w op r' Hin.
  pose proof (step_effect w op) as Heff.
  remember (customers (step w op)) as rows' eqn:Hrows'. clear Hrows'.
  assert (Hsame : forall rows (f : Customer -> Customer),
             (forall r, ID (f r) = ID r /\ MerchantID (f r) = MerchantID r
                        /\ CreatedAt (f r) = CreatedAt r) ->
             In r' (map f rows) ->
             exists r, In r rows /\ ID r' = ID r
                       /\ MerchantID r' = MerchantID r
                       /\ CreatedAt r' = CreatedAt r).
  { intros rows f Hf H. apply in_map_iff in H. destruct H as (r & Hr & H).
    exists r. subst r'. split; [exact H | apply Hf]. }
  inversion Heff as [op' Hop Hrows
                    | input row Hid Hkey Hm Hlp Ha Hn Hp He Hop Hrows
                    | input name phone email now Hn Hp He Hop Hrows
                    | id uid Hparse Hop Hrows
                    | id uid points now Hparse Hrange Hop Hrows];
    subst.
  - left. exists r'. repeat split; try reflexivity. exact Hin.
  - apply in_app_or in Hin. destruct Hin as [Hin|[Hin|[]]].
    + left. exists r'. repeat split; try reflexivity. exact Hin.
    + right. subst r'. exists input. repeat split; assumption.
  - left. apply Hsame in Hin; [exact Hin|].
    intros r. destruct (has_id (ID input) r); repeat split; reflexivity.
  - left. apply filter_In in Hin.
    exists r'. repeat split; try reflexivity. apply Hin.
  - left. apply Hsame in Hin; [exact Hin|].
    intros r. destruct (has_id uid r); repeat split; reflexivity.
Qed.

Lemma calls_keep_identity_witness :
  exists r, In r (customers shop)
            /\ ID r = [1; 2; 3; 4; 5; 6; 71; 8; 137; 10; 11; 12; 13; 14; 15; 16]
            /\ MerchantID r = merchant_a /\ CreatedAt r = 1000.
Proof.
  destruct (calls_keep_identity shop
              (OpUpdateCustomer
                 {| ID := [1; 2; 3; 4; 5; 6; 71; 8; 137; 10; 11; 12; 13; 14; 15; 16];
                    MerchantID := merchant_b; Name := "A"; Phone := "1";
                    Email := ""; Address := ""; LoyaltyPoints := 3;
                    CreatedAt := 5; UpdatedAt := 5 |})
              {| ID := [1; 2; 3; 4; 5; 6; 71; 8; 137; 10; 11; 12; 13; 14; 15; 16];
                 MerchantID := merchant_a; Name := "A"; Phone := "1";
                 Email := ""; Address := ""; LoyaltyPoints := 0;
                 CreatedAt := 1000; UpdatedAt := 1005 |})
    as [(r & Hin & Hid & Hm & Hc)|(input & Hop & _)].
  - vm_compute. left. reflexivity.
  - exists r. simpl in Hid, Hm, Hc. repeat split; congruence.
  - discriminate Hop.
Defined.

(** ** Deletion *)

Lemma filter_all :
  forall (p : Customer -> bool) rows,
    (forall r, In r rows -> p r = true) -> filter p rows = rows.
Proof.
  intros p rows H. induction rows as [|r rows IH]; [reflexivity|].
  simpl. rewrite (H r (or_introl eq_refl)). f_equal.
  apply IH. intros x Hx. apply H. right. exact Hx.
Qed.

(** X3. Deleting by a well-formed identifier succeeds whether or not a
    customer has it (the connection being up): the customers of other
    identifiers stay as they are, a table without the identifier is left
    unchanged, and a lookup by that identifier afterwards answers
    "customer not found". *)
Theorem DeleteCustomer_is_idempotent :
  forall (id : string) (uid : uuid.UUID) (w : World),
    uuid.Parse id = Some uid ->
    connected 2 w ->
    exists w' w'',
      usecase.customerUseCase.DeleteCustomer pg id w = (Ok tt, w')
      /\ (forall r, In r (customers w') <-> In r (customers w) /\ ID r <> uid)
      /\ ((forall r, In r (customers w) -> ID r <> uid) -> customers w' = customers w)
      /\ usecase.customerUseCase.GetCustomer pg id w'
         = (Err (errors_New "customer not found"), w'')
      /\ customers (snd (usecase.customerUseCase.DeleteCustomer pg id w'))
         = customers w'.
Proof.
  intros id uid w Hparse Hconn.
  pose proof (connected_hd _ _ Hconn) as H1.
  pose proof (connected_hd_tl _ _ Hconn) as H2.
  assert (Hgone : forall r,
             In r (filter (fun r => negb (has_id uid r)) (customers w)) ->
             ID r <> uid).
  { intros r Hr. apply filter_In in Hr. destruct Hr as [_ Hr].
    apply negb_true_iff in Hr. apply uuid_eqb_neq. exact Hr. }
  unfold usecase.customerUseCase.DeleteCustomer,
    usecase.customerUseCase.GetCustomer. rewrite Hparse.
  to_statements. rewrite H1. simpl.
  eexists. eexists. split; [reflexivity|]. simpl. rewrite H2. simpl.
  split; [|split; [|split]].
  - intros r. rewrite filter_In, negb_true_iff. unfold has_id.
    rewrite uuid_eqb_neq. reflexivity.
  - intros Habs. apply filter_all. intros r Hr. apply negb_true_iff.
    apply uuid_eqb_neq. exact (Habs r Hr).
  - rewrite (find_absent uid _ Hgone). reflexivity.
  - apply filter_all. intros r Hr. apply negb_true_iff.
    apply uuid_eqb_neq. exact (Hgone r Hr).
Qed.

Lemma DeleteCustomer_is_idempotent_witness :
  exists w',
    usecase.customerUseCase.DeleteCustomer pg alice_id shop = (Ok tt, w')
    /\ map Name (customers w') = ["Bob"%string]
    /\ fst (usecase.customerUseCase.GetCustomer pg alice_id w')
       = Err (errors_New "customer not found").
Proof.
  destruct (DeleteCustomer_is_idempotent alice_id
              [1; 2; 3; 4; 5; 6; 71; 8; 137; 10; 11; 12; 13; 14; 15; 16] shop
              eq_refl eq_refl)
    as (w' & w'' & Hdel & _ & _ & Hget & _).
  exists w'. split; [exact Hdel|]. split; [|rewrite Hget; reflexivity].
  vm_compute in Hdel. injection Hdel as Hw. subst w'. reflexivity.
Defined.

(** ** The increment *)

Lemma NoDup_ID_inj :
  forall rows a b,
    NoDup (map ID rows) -> In a rows -> In b rows -> ID a = ID b -> a = b.
Proof.
  induction rows as [|r rows IH]; intros a b Hnd Ha Hb Hid; [destruct Ha|].
  simpl in Hnd. inversion Hnd as [|x l Hnotin Hnd']; subst.
  destruct Ha as [Ha|Ha]; destruct Hb as [Hb|Hb]; subst.
  - reflexivity.
  - exfalso. apply Hnotin. rewrite Hid. apply in_map. exact Hb.
  - exfalso. apply Hnotin. rewrite <- Hid. apply in_map. exact Ha.
  - apply (IH a b); assumption.
Qed.

Lemma find_map_same_id :
  forall uid (f : Customer -> Customer) rows,
    (forall r, ID (f r) = ID r) ->
    find (has_id uid) (map f rows) = option_map f (find (has_id uid) rows).
Proof.
  intros uid f rows Hf. induction rows as [|r rows IH]; [reflexivity|].
  simpl. unfold has_id at 1 3. rewrite Hf.
  destruct (uuid.eqb (ID r) uid); [reflexivity | exact IH].
Qed.

(** X4. For a stored customer, a table with distinct identifiers, a sum that
    stays a 32-bit integer and the connection up, [AddLoyaltyPoints]
    returns the old balance plus the points; in the table that customer
    has the new balance and a new update time, and nothing else has
    changed. *)
Theorem AddLoyaltyPoints_returns_new_total :
  forall (id : string) (uid : uuid.UUID) (points : Z) (w : World) (c : Customer),
    uuid.Parse id = Some uid ->
    NoDup (map ID (customers w)) ->
    In c (customers w) ->
    ID c = uid ->
    in_int32 (LoyaltyPoints c + points) = true ->
    connected 2 w ->
    exists w',
      usecase.customerUseCase.AddLoyaltyPoints pg id points w
      = (Ok (LoyaltyPoints c + points), w')
      /\ Forall2 (fun old new =>
                    if has_id uid old
                    then new = {| ID := ID old; MerchantID := MerchantID old;
                                  Name := Name old; Phone := Phone old;
                                  Email := Email old; Address := Address old;
                                  LoyaltyPoints := LoyaltyPoints old + points;
                                  CreatedAt := CreatedAt old;
                                  UpdatedAt := hd 0 (clock w) |}
                    else new = old)
                 (customers w) (customers w').
Proof.
  intros id uid points w c Hparse Hnd Hin Hid Hrange Hconn.
  pose proof (connected_hd _ _ Hconn) as H1.
  pose proof (connected_hd_tl _ _ Hconn) as H2.
  unfold usecase.customerUseCase.AddLoyaltyPoints. rewrite Hparse.
  to_statements. rewrite H1. simpl.
  assert (Hall : forallb
                   (fun r => negb (has_id uid r) || in_int32 (LoyaltyPoints r + points))
                   (customers w) = true).
  { apply forallb_forall. intros r Hr. unfold has_id.
    destruct (uuid.eqb (ID r) uid) eqn:E; [|reflexivity].
    apply uuid_eqb_eq in E.
    assert (r = c) by (apply (NoDup_ID_inj (customers w)); congruence).
    subst r. exact Hrange. }
  rewrite Hall. simpl. rewrite H2. simpl.
  rewrite find_map_same_id
    by (intros r; destruct (has_id uid r); reflexivity).
  rewrite <- Hid. rewrite (find_stored _ c Hnd Hin). simpl.
  unfold has_id at 1. rewrite uuid_eqb_refl. simpl.
  eexists. split; [reflexivity|]. simpl.
  apply Forall2_map_same. intros r. destruct (has_id (ID c) r); reflexivity.
Qed.

Lemma AddLoyaltyPoints_returns_new_total_witness :
  exists w',
    usecase.customerUseCase.AddLoyaltyPoints pg alice_id 7 shop = (Ok 7, w')
    /\ map LoyaltyPoints (customers w') = [7; 0].
Proof.
  destruct (AddLoyaltyPoints_returns_new_total alice_id
              [1; 2; 3; 4; 5; 6; 71; 8; 137; 10; 11; 12; 13; 14; 15; 16]
              7 shop (nth 0 (customers shop) bob))
    as (w' & H & _).
  - reflexivity.
  - simpl. repeat constructor; simpl; intuition discriminate.
  - left. reflexivity.
  - reflexivity.
  - reflexivity.
  - reflexivity.
  - exists w'. split; [exact H|].
    vm_compute in H. injection H as Hw. subst w'. reflexivity.
Defined.

Lemma Forall2_compose :
  forall (R1 R2 R : Customer -> Customer -> Prop) l1 l2 l3,
    (forall a b c, R1 a b -> R2 b c -> R a c) ->
    Forall2 R1 l1 l2 -> Forall2 R2 l2 l3 -> Forall2 R l1 l3.
Proof.
  intros R1 R2 R l1 l2 l3 HR H12. revert l3.
  induction H12 as [|a b l1 l2 Hab _ IH]; intros l3 H23;
    inversion H23; subst; constructor; eauto.
Qed.

(** X5. Two increments of the same customer, one after the other, add up: the
    balance ends at the old one plus both amounts, as after a single
    increment by their sum, so neither is lost and their order does not
    matter; every other balance is as before. *)
Theorem increments_add_up :
  forall (uid : uuid.UUID) (d1 d2 : Z) (w w1 w2 : World),
    pgRepository.AddLoyaltyPoints uid d1 w = (Ok tt, w1) ->
    pgRepository.AddLoyaltyPoints uid d2 w1 = (Ok tt, w2) ->
    Forall2 (fun old new =>
               ID new = ID old
               /\ LoyaltyPoints new
                  = if has_id uid old then LoyaltyPoints old + (d1 + d2)
                    else LoyaltyPoints old)
            (customers w) (customers w2).
Proof.
  intros uid d1 d2 w w1 w2 H1 H2.
  apply pg_AddLoyaltyPoints_rows in H1. apply pg_AddLoyaltyPoints_rows in H2.
  refine (Forall2_compose _ _ _ _ _ _ _ H1 H2).
  intros a b c [Hid1 Hlp1] [Hid2 Hlp2].
  split; [congruence|]. rewrite Hlp2. unfold has_id in *. rewrite Hid1.
  destruct (uuid.eqb (ID a) uid); lia.
Qed.

Lemma increments_add_up_witness :
  let uid := [1; 2; 3; 4; 5; 6; 71; 8; 137; 10; 11; 12; 13; 14; 15; 16] in
  let w1 := snd (pgRepository.AddLoyaltyPoints uid 7 shop) in
  let w2 := snd (pgRepository.AddLoyaltyPoints uid (-3) w1) in
  pgRepository.AddLoyaltyPoints uid 7 shop = (Ok tt, w1)
  /\ pgRepository.AddLoyaltyPoints uid (-3) w1 = (Ok tt, w2)
  /\ map LoyaltyPoints (customers w2) = [4; 0]
  /\ Forall2 (fun old new =>
                ID new = ID old
                /\ LoyaltyPoints new
                   = if has_id uid old then LoyaltyPoints old + (7 + -3)
                     else LoyaltyPoints old)
             (customers shop) (customers w2).
Proof.
  intros uid w1 w2.
  assert (H1 : pgRepository.AddLoyaltyPoints uid 7 shop = (Ok tt, w1))
    by reflexivity.
  assert (H2 : pgRepository.AddLoyaltyPoints uid (-3) w1 = (Ok tt, w2))
    by reflexivity.
  split; [exact H1|]. split; [exact H2|]. split; [reflexivity|].
  exact (increments_add_up uid 7 (-3) shop w1 w2 H1 H2).
Defined.

(** X6. An increment that would take the balance of a stored customer out of
    the 32-bit range is refused by the store: [AddLoyaltyPoints] returns
    the store's error and no balance has changed. *)
Theorem AddLoyaltyPoints_out_of_range :
  forall (id : string) (uid : uuid.UUID) (points : Z) (w : World) (c : Customer),
    uuid.Parse id = Some uid ->
    In c (customers w) ->
    ID c = uid ->
    in_int32 (LoyaltyPoints c + points) = false ->
    connected 1 w ->
    exists w',
      usecase.customerUseCase.AddLoyaltyPoints pg id points w
      = (Err (pg_Error sql.numeric_value_out_of_range), w')
      /\ customers w' = customers w.
Proof.
  intros id uid points w c Hparse Hin Hid Hrange Hconn.
  pose proof (connected_hd _ _ Hconn) as H1.
  unfold usecase.customerUseCase.AddLoyaltyPoints. rewrite Hparse.
  to_statements. rewrite H1. simpl.
  match goal with
  | |- context [forallb ?p ?l] => destruct (forallb p l) eqn:Hall
  end.
  - rewrite forallb_forall in Hall. specialize (Hall c Hin).
    unfold has_id in Hall. rewrite Hid, uuid_eqb_refl, Hrange in Hall.
    discriminate Hall.
  - simpl. eexists. split; reflexivity.
Qed.

Lemma AddLoyaltyPoints_out_of_range_witness :
  exists w',
    usecase.customerUseCase.AddLoyaltyPoints pg alice_id MaxInt32
      (step shop (OpAddLoyaltyPoints alice_id 1))
    = (Err (pg_Error sql.numeric_value_out_of_range), w')
    /\ map LoyaltyPoints (customers w') = [1; 0].
Proof.
  destruct (AddLoyaltyPoints_out_of_range alice_id
              [1; 2; 3; 4; 5; 6; 71; 8; 137; 10; 11; 12; 13; 14; 15; 16]
              MaxInt32 (step shop (OpAddLoyaltyPoints alice_id 1))
              (nth 0 (customers (step shop (OpAddLoyaltyPoints alice_id 1))) bob))
    as (w' & H & Hrows).
  - reflexivity.
  - left. reflexivity.
  - reflexivity.
  - reflexivity.
  - reflexivity.
  - exists w'. split; [exact H|]. rewrite Hrows. reflexivity.
Defined.

(** ** Lookup by phone number *)

Lemma NoDup_map_inj :
  forall (B : Type) (f : Customer -> B) rows a b,
    NoDup (map f rows) -> In a rows -> In b rows -> f a = f b -> a = b.
Proof.
  intros B f. induction rows as [|r rows IH]; intros a b Hnd Ha Hb Hf; [destruct Ha|].
  simpl in Hnd. inversion Hnd as [|x l Hnotin Hnd']; subst.
  destruct Ha as [Ha|Ha]; destruct Hb as [Hb|Hb]; subst.
  - reflexivity.
  - exfalso. apply Hnotin. rewrite Hf. apply in_map. exact Hb.
  - exfalso. apply Hnotin. rewrite <- Hf. apply in_map. exact Ha.
  - apply (IH a b); assumption.
Qed.

(** X7. [GetByPhone] (the connection being up) never fails and changes
    nothing. What it returns is a stored record of the given merchant
    with the given phone number, or the not-found sentinel when the table
    has none; with (merchant, phone) pairs distinct, every stored record
    is the one returned for its own merchant and phone number. *)
Theorem GetByPhone_finds_the_pair :
  forall (merchantID : uuid.UUID) (phone : string) (w : World),
    connected 1 w ->
    exists o w',
      pgRepository.GetByPhone merchantID phone w = (Ok o, w')
      /\ customers w' = customers w
      /\ match o with
         | Some c => In c (customers w)
                     /\ MerchantID c = merchantID /\ Phone c = phone
         | None => forall r, In r (customers w) ->
                             merchant_phone r <> (merchantID, phone)
         end
      /\ (NoDup (map merchant_phone (customers w)) ->
          forall c, In c (customers w) ->
                    merchant_phone c = (merchantID, phone) -> o = Some c).
Proof.
  intros merchantID phone w Hconn.
  pose proof (connected_hd _ _ Hconn) as H1.
  unfold pgRepository.GetByPhone, bind, roundtrip. simpl. rewrite H1. simpl.
  eexists. eexists. split; [reflexivity|]. simpl. split; [reflexivity|].
  set (p := fun r => uuid.eqb (MerchantID r) merchantID && String.eqb (Phone r) phone).
  assert (Hp : forall r, p r = true <-> merchant_phone r = (merchantID, phone)).
  { intros r. unfold p, merchant_phone.
    rewrite andb_true_iff, uuid_eqb_eq, String.eqb_eq. split.
    - intros [Hm Hph]. congruence.
    - intros H. injection H as Hm Hph. split; assumption. }
  destruct (find p (customers w)) as [c|] eqn:Hfind.
  - apply find_some in Hfind. destruct Hfind as [Hin Hc].
    apply Hp in Hc. split.
    + unfold merchant_phone in Hc. injection Hc as Hm Hph.
      repeat split; assumption.
    + intros Hnd c' Hin' Hc'. f_equal.
      apply (NoDup_map_inj _ merchant_phone (customers w)); congruence.
  - split.
    + intros r Hr Hk. apply Hp in Hk.
      pose proof (find_none _ _ Hfind r Hr) as Hn. congruence.
    + intros _ c Hin Hc. apply Hp in Hc.
      pose proof (find_none _ _ Hfind c Hin) as Hn. congruence.
Qed.

Lemma GetByPhone_finds_the_pair_witness :
  exists c w',
    pgRepository.GetByPhone merchant_b "0811000111" shop = (Ok (Some c), w')
    /\ Name c = "Bob"%string.
Proof.
  destruct (GetByPhone_finds_the_pair merchant_b "0811000111" shop eq_refl)
    as (o & w' & H & _ & _ & Huniq).
  assert (Hnd : NoDup (map merchant_phone (customers shop)))
    by (simpl; repeat constructor; simpl; intuition discriminate).
  rewrite (Huniq Hnd (nth 1 (customers shop) alice)) in H.
  - exists (nth 1 (customers shop) alice), w'. split; [exact H | reflexivity].
  - right. left. reflexivity.
  - reflexivity.
Defined.

(** ** The size of a page *)

Lemma pg_List_page :
  forall (merchantID : uuid.UUID) (page pageSize : Z) (search : string) (w : World),
    1 <= page <= MaxInt64 ->
    0 <= pageSize <= MaxInt64 ->
    (page - 1) * pageSize <= MaxInt64 ->
    connected 2 w ->
    pgRepository.List merchantID page pageSize search w
    = (Ok (firstn (Z.to_nat pageSize)
             (skipn (Z.to_nat ((page - 1) * pageSize))
                (sql.order_by_created_at_desc
                   (filter (pgRepository.selected merchantID search) (customers w)))),
           Z.of_nat (length (filter (pgRepository.selected merchantID search)
                               (customers w)))),
       unplug (tl (tl (link w))) w).
Proof.
  intros merchantID page pageSize search w Hpage Hsize Hoff Hconn.
  pose proof (connected_hd _ _ Hconn) as H1.
  pose proof (connected_hd_tl _ _ Hconn) as H2.
  assert (Hoff0 : 0 <= (page - 1) * pageSize) by nia.
  unfold pgRepository.List.
  rewrite (wrap_64_small (page - 1)) by (unfold MaxInt64 in *; lia).
  rewrite (wrap_64_small ((page - 1) * pageSize)) by (unfold MaxInt64 in *; lia).
  unfold bind, roundtrip, ret. simpl. rewrite H1. simpl.
  destruct (Z.ltb_spec ((page - 1) * pageSize) 0) as [Hneg|_]; [lia|].
  destruct (Z.ltb_spec pageSize 0) as [Hneg|_]; [lia|].
  simpl. rewrite H2. reflexivity.
Qed.



(** ** Outcomes of a profile update *)

Lemma NoDup_key_update :
  forall (id : uuid.UUID) (k : uuid.UUID * string) (f : Customer -> Customer) rows,
    NoDup (map ID rows) ->
    NoDup (map merchant_phone rows) ->
    (forall r, In r rows -> ID r <> id -> merchant_phone r <> k) ->
    (forall r, merchant_phone (f r) = k) ->
    NoDup (map merchant_phone (map (fun r => if has_id id r then f r else r) rows)).
Proof.
  intros id k f rows Hids Hkeys Hfree Hf.
  induction rows as [|r rows IH]; simpl; [constructor|].
  simpl in Hids, Hkeys.
  inversion Hids as [|x l Hidnotin Hids']; subst.
  inversion Hkeys as [|x l Hkeynotin Hkeys']; subst.
  assert (IH' : NoDup (map merchant_phone
                         (map (fun r => if has_id id r then f r else r) rows))).
  { apply IH; try assumption. intros x Hx. apply Hfree. right. exact Hx. }
  constructor; [|exact IH'].
  intros Hin. apply in_map_iff in Hin. destruct Hin as (y & Hy & Hin).
  apply in_map_iff in Hin. destruct Hin as (x & Hx & Hin). subst y.
  unfold has_id in *.
  destruct (uuid.eqb (ID r) id) eqn:Er; destruct (uuid.eqb (ID x) id) eqn:Ex.
  - apply uuid_eqb_eq in Er. apply uuid_eqb_eq in Ex.
    apply Hidnotin. rewrite Er, <- Ex. apply in_map. exact Hin.
  - apply uuid_eqb_neq in Ex. rewrite Hf in Hy.
    apply (Hfree x (or_intror Hin) Ex). exact Hy.
  - apply uuid_eqb_neq in Er. rewrite Hf in Hy.
    apply (Hfree r (or_introl eq_refl) Er). symmetry. exact Hy.
  - apply Hkeynotin. rewrite <- Hy. apply in_map. exact Hin.
Qed.

(** X9. A profile update of a stored customer goes through when the text fits
    the columns and no other customer of the same merchant has the new
    phone number (distinct identifiers and pairs in the table, the
    connection up). The record returned is the stored one with the new
    name, phone, email and address and the update time read last; in the
    table that customer's row is this record and every other row is
    unchanged. *)
Theorem UpdateCustomer_stores_what_it_returns :
  forall (input : Customer) (w : World) (c : Customer),
    NoDup (map ID (customers w)) ->
    NoDup (map merchant_phone (customers w)) ->
    In c (customers w) ->
    ID c = ID input ->
    fits input ->
    (forall r, In r (customers w) -> ID r <> ID input ->
               merchant_phone r <> (MerchantID c, Phone input)) ->
    connected 2 w ->
    let c' := {| ID := ID c; MerchantID := MerchantID c;
                 Name := Name input; Phone := Phone input;
                 Email := Email input; Address := Address input;
                 LoyaltyPoints := LoyaltyPoints c;
                 CreatedAt := CreatedAt c;
                 UpdatedAt := hd 0 (tl (clock w)) |} in
    exists w',
      usecase.customerUseCase.UpdateCustomer runtime pg input w = (Ok c', w')
      /\ In c' (customers w')
      /\ Forall2 (fun old new => if has_id (ID input) old then new = c' else new = old)
                 (customers w) (customers w').
Proof.
  intros input w c Hids Hkeys Hin Hid Hfits Hfree Hconn c'.
  pose proof (connected_hd _ _ Hconn) as H1.
  pose proof (connected_hd_tl _ _ Hconn) as H2.
  unfold usecase.customerUseCase.UpdateCustomer, bind, lift, ret.
  to_statements. rewrite H1. simpl.
  rewrite <- Hid. rewrite (find_stored _ c Hids Hin). simpl.
  rewrite H2. simpl.
  rewrite as_row_fits by exact Hfits. simpl.
  set (upd := fun r : Customer =>
                {| ID := ID r; MerchantID := MerchantID r;
                   Name := Name input; Phone := Phone input;
                   Email := Email input; Address := Address input;
                   LoyaltyPoints := LoyaltyPoints r;
                   CreatedAt := CreatedAt r;
                   UpdatedAt := hd 0 (tl (clock w)) |}).
  assert (Hrows : forall r, In r (customers w) -> has_id (ID c) r = true -> upd r = c').
  { intros r Hr Hh. apply uuid_eqb_eq in Hh.
    assert (r = c) by (apply (NoDup_ID_inj (customers w)); assumption).
    subst r. reflexivity. }
  assert (Hmap : map (fun r => if has_id (ID c) r then upd r else r) (customers w)
                 = map (fun r => if has_id (ID c) r then c' else r) (customers w)).
  { apply map_ext_in. intros r Hr.
    destruct (has_id (ID c) r) eqn:E; [apply Hrows; assumption | reflexivity]. }
  assert (Huniq : sql.unique_merchant_phone
                    (map (fun r => if has_id (ID c) r then upd r else r) (customers w))
                  = true).
  { apply unique_merchant_phone_NoDup. rewrite Hmap.
    apply (NoDup_key_update (ID c) (MerchantID c, Phone input) (fun _ => c'));
      try assumption; [|reflexivity].
    intros r Hr Hne. apply Hfree; [exact Hr | congruence]. }
  subst upd. cbv beta in Huniq, Hmap. rewrite Huniq. simpl.
  eexists. split; [reflexivity|]. simpl. rewrite Hmap. split.
  - apply in_map_iff. exists c. split; [|exact Hin].
    unfold has_id. rewrite uuid_eqb_refl. reflexivity.
  - apply Forall2_map_same. intros r.
    destruct (has_id (ID c) r); reflexivity.
Qed.

Lemma UpdateCustomer_stores_what_it_returns_witness :
  exists c' w',
    usecase.customerUseCase.UpdateCustomer runtime pg
      {| ID := [17; 18; 19; 20; 21; 22; 71; 24; 153; 26; 27; 28; 29; 30; 31; 32];
         MerchantID := uuid.Nil; Name := "Robert"; Phone := "0811000222";
         Email := "bob@example.com"; Address := "Jl. Sudirman 2";
         LoyaltyPoints := 0; CreatedAt := 0; UpdatedAt := 0 |} shop
    = (Ok c', w')
    /\ Name c' = "Robert"%string /\ MerchantID c' = merchant_b
    /\ In c' (customers w').
Proof.
  destruct (UpdateCustomer_stores_what_it_returns
              {| ID := [17; 18; 19; 20; 21; 22; 71; 24; 153; 26; 27; 28; 29; 30; 31; 32];
                 MerchantID := uuid.Nil; Name := "Robert"; Phone := "0811000222";
                 Email := "bob@example.com"; Address := "Jl. Sudirman 2";
                 LoyaltyPoints := 0; CreatedAt := 0; UpdatedAt := 0 |}
              shop (nth 1 (customers shop) alice))
    as (w' & H & Hin & _).
  - simpl. repeat constructor; simpl; intuition discriminate.
  - simpl. repeat constructor; simpl; intuition discriminate.
  - right. left. reflexivity.
  - reflexivity.
  - unfold fits. simpl. lia.
  - intros r Hr Hne. simpl in Hr. destruct Hr as [Hr|[Hr|[]]]; subst r.
    + vm_compute. discriminate.
    + exfalso. apply Hne. reflexivity.
  - reflexivity.
  - eexists. exists w'. split; [exact H|]. split; [reflexivity|].
    split; [reflexivity | exact Hin].
Defined.

(** X10. A profile update that would give a customer the phone number of
    another customer of the same merchant is refused by the store:
    [UpdateCustomer] returns the unique violation and the table is as
    before. *)
Theorem UpdateCustomer_phone_taken :
  forall (input : Customer) (w : World) (c other : Customer),
    NoDup (map ID (customers w)) ->
    In c (customers w) ->
    ID c = ID input ->
    In other (customers w) ->
    ID other <> ID input ->
    MerchantID other = MerchantID c ->
    Phone other = Phone input ->
    fits input ->
    connected 2 w ->
    exists w',
      usecase.customerUseCase.UpdateCustomer runtime pg input w
      = (Err (pg_Error sql.unique_violation), w')
      /\ customers w' = customers w.
Proof.
  intros input w c other Hids Hin Hid Hother Hne Hm Hp Hfits Hconn.
  pose proof (connected_hd _ _ Hconn) as H1.
  pose proof (connected_hd_tl _ _ Hconn) as H2.
  unfold usecase.customerUseCase.UpdateCustomer, bind, lift, ret.
  to_statements. rewrite H1. simpl.
  rewrite <- Hid in *. rewrite (find_stored _ c Hids Hin). simpl.
  rewrite H2. simpl.
  rewrite as_row_fits by exact Hfits. simpl.
  match goal with
  | |- context [sql.unique_merchant_phone ?l] =>
      destruct (sql.unique_merchant_phone l) eqn:Hu
  end; simpl; [|eexists; split; reflexivity].
  exfalso. apply unique_merchant_phone_NoDup in Hu.
  assert (E : uuid.eqb (ID other) (ID c) = false)
    by (apply uuid_eqb_neq; exact Hne).
  match type of Hu with
  | NoDup (map merchant_phone (map ?g0 (customers w))) => set (g := g0) in Hu
  end.
  assert (Heq : g c = g other).
  { apply (NoDup_map_inj _ merchant_phone (map g (customers w)) (g c) (g other) Hu).
    - apply in_map. exact Hin.
    - apply in_map. exact Hother.
    - unfold g, has_id. rewrite uuid_eqb_refl, E.
      unfold merchant_phone. simpl. congruence. }
  unfold g, has_id in Heq. rewrite uuid_eqb_refl, E in Heq.
  apply Hne. rewrite <- Heq. reflexivity.
Qed.

Lemma UpdateCustomer_phone_taken_witness :
  let carol :=
    {| ID := uuid.Nil; MerchantID := merchant_a; Name := "Carol";
       Phone := "0811000333"; Email := ""; Address := "";
       LoyaltyPoints := 0; CreatedAt := 0; UpdatedAt := 0 |} in
  let w := step shop (OpCreateCustomer carol) in
  length (customers w) = 3%nat
  /\ exists w',
       usecase.customerUseCase.UpdateCustomer runtime pg
         {| ID := [1; 2; 3; 4; 5; 6; 71; 8; 137; 10; 11; 12; 13; 14; 15; 16];
            MerchantID := uuid.Nil; Name := "Alice"; Phone := "0811000333";
            Email := ""; Address := "";
            LoyaltyPoints := 0; CreatedAt := 0; UpdatedAt := 0 |} w
       = (Err (pg_Error sql.unique_violation), w')
       /\ customers w' = customers w.
Proof.
  intros carol w. split; [reflexivity|].
  apply (UpdateCustomer_phone_taken _ w
           (nth 0 (customers w) bob) (nth 2 (customers w) bob)).
  - vm_compute. repeat constructor; simpl; intuition discriminate.
  - left. reflexivity.
  - reflexivity.
  - right. right. left. reflexivity.
  - vm_compute. discriminate.
  - reflexivity.
  - reflexivity.
  - unfold fits. simpl. lia.
  - reflexivity.
Defined.

(** ** The consumer loop *)

(** X13. The loop of [Start] hands the messages it reads to [processMessage]
    one by one, in the order read, and nothing else touches the state: a
    read that fails without the context being cancelled changes nothing
    and does not end the loop, whatever came before. The loop returns
    exactly when it meets a cancelled context, at the [select] or after a
    failed read; what is read after that is not processed. *)
Theorem Start_handles_messages_in_order :
  forall (S : Type) (service : usecase.UseCase S)
         (json_Unmarshal : list Z -> option listener.OrderCreatedEvent)
         (overflow : listener.float64 -> Z)
         (turns : list listener.Poll) (s : S),
    let process := listener.CustomerListener.processMessage service json_Unmarshal overflow in
    let start := listener.CustomerListener.Start service json_Unmarshal overflow in
    start turns s
    = (fold_left (fun s value => process value s) (handled turns) s,
       existsb stops turns)
    /\ (forall before after,
           turns = before ++ after ->
           existsb stops before = false ->
           start turns s = start after (fst (start before s)))
    /\ (forall before after,
           turns = before ++ after ->
           existsb stops before = true ->
           start turns s = start before s).
Proof.
  intros S service json_Unmarshal overflow turns s process start.
  assert (Hfold : forall turns s,
             start turns s
             = (fold_left (fun s value => process value s) (handled turns) s,
                existsb stops turns)).
  { clear turns s. induction turns as [|turn turns IH]; intros s; [reflexivity|].
    destruct turn as [|value|[]]; simpl; try reflexivity; apply IH. }
  split; [apply Hfold|]. split.
  - intros before after Hturns Hgo. subst turns. revert s.
    induction before as [|turn before IH]; intros s; [reflexivity|].
    simpl in Hgo. apply orb_false_iff in Hgo. destruct Hgo as [Hturn Hgo].
    destruct turn as [|value|[]]; try discriminate Hturn; simpl; apply IH; exact Hgo.
  - intros before after Hturns Hstop. subst turns. revert s.
    induction before as [|turn before IH]; intros s; [discriminate Hstop|].
    destruct turn as [|value|[]]; simpl; try reflexivity; apply IH; exact Hstop.
Qed.

Lemma Start_handles_messages_in_order_witness :
  let start :=
    listener.CustomerListener.Start recorder
      (fun value => match value with
                    | [n] => Some (order "OrderCreated" (Some alice_id) n)
                    | _ => None
                    end) amd64 in
  start [listener.Received [25]; listener.ReadFailed false; listener.Received [];
         listener.Received [40]; listener.ReadFailed true; listener.Received [90]] []
  = ([(alice_id, 2); (alice_id, 4)], true)
  /\ start [listener.Received [25]; listener.ReadFailed false; listener.Received [30]] []
     = start [listener.Received [30]] [(alice_id, 2)].
Proof.
  intros start. split.
  - unfold start.
    rewrite (proj1 (Start_handles_messages_in_order _ recorder _ amd64 _ [])).
    reflexivity.
  - unfold start.
    rewrite (proj1 (proj2 (Start_handles_messages_in_order _ recorder _ amd64
                             [listener.Received [25]; listener.ReadFailed false;
                              listener.Received [30]] []))
               [listener.Received [25]; listener.ReadFailed false]
               [listener.Received [30]] eq_refl eq_refl).
    reflexivity.
Defined.

(** X14. Whatever the consumer reads, it only ever adds points. Over any run
    of [Start] against the domain service, every row of the table is
    still there with the same identifier, merchant, name, phone, email,
    address and creation time, its balance is not lower than before, and
    no row has been added: the consumer creates, deletes and edits no
    customer. *)
Theorem consumer_only_adds_points :
  forall (json_Unmarshal : list Z -> option listener.OrderCreatedEvent)
         (overflow : listener.float64 -> Z)
         (turns : list listener.Poll) (w : World),
    Forall2 (fun old new =>
               ID new = ID old /\ MerchantID new = MerchantID old
               /\ Name new = Name old /\ Phone new = Phone old
               /\ Email new = Email old /\ Address new = Address old
               /\ CreatedAt new = CreatedAt old
               /\ LoyaltyPoints old <= LoyaltyPoints new)
            (customers w)
            (customers (fst (listener.CustomerListener.Start uc json_Unmarshal
                               overflow turns w))).
Proof.
  intros json_Unmarshal overflow.
  set (R := fun old new : Customer =>
              ID new = ID old /\ MerchantID new = MerchantID old
              /\ Name new = Name old /\ Phone new = Phone old
              /\ Email new = Email old /\ Address new = Address old
              /\ CreatedAt new = CreatedAt old
              /\ LoyaltyPoints old <= LoyaltyPoints new).
  assert (Hrefl : forall rows, Forall2 R rows rows).
  { intros rows. rewrite <- (map_id rows) at 2. apply Forall2_map_same.
    intros r. unfold R. repeat split; reflexivity. }
  assert (Hone : forall value w,
             Forall2 R (customers w)
               (customers (listener.CustomerListener.processMessage uc json_Unmarshal
                             overflow value w))).
  { intros value w. unfold listener.CustomerListener.processMessage.
    destruct (json_Unmarshal value) as [event|]; [|apply Hrefl].
    destruct (negb (String.eqb (listener.EventType event) "OrderCreated"));
      [apply Hrefl|].
    destruct (listener.CustomerID (listener.Payload event)) as [customerID|];
      [|apply Hrefl].
    destruct (String.eqb customerID ""); [apply Hrefl|].
    match goal with
    | |- context [0 <? ?p] => set (points := p); destruct (Z.ltb_spec 0 points)
    end; [|apply Hrefl].
    pose proof (step_effect w (OpAddLoyaltyPoints customerID points)) as Heff.
    change (customers (snd (usecase.AddLoyaltyPoints uc customerID points w)))
      with (customers (step w (OpAddLoyaltyPoints customerID points))).
    remember (customers (step w (OpAddLoyaltyPoints customerID points))) as rows'
      eqn:Hrows'.
    clear Hrows'.
    inversion Heff as [op' Hop Hrows | | | | id uid pts now Hparse Hrange Hop Hrows];
      subst.
    - apply Hrefl.
    - apply Forall2_map_same. intros r. unfold R.
      destruct (has_id uid r); simpl; repeat split; try reflexivity; try lia. }
  induction turns as [|turn turns IH]; intros w; [apply Hrefl|].
  destruct turn as [|value|[]]; simpl; try apply Hrefl; try apply IH.
  refine (Forall2_compose R R R _ _ _ _ (Hone value w) (IH _)).
  unfold R. intros a b c Hab Hbc.
  destruct Hab as (? & ? & ? & ? & ? & ? & ? & ?).
  destruct Hbc as (? & ? & ? & ? & ? & ? & ? & ?).
  repeat split; try congruence. lia.
Qed.

(** X15. An "OrderCreated" event for a stored customer credits the award to
    that customer and to no one else: with the award n, the integer of
    [math.Floor(total_amount / 10.0)], between 1 and the largest 32-bit
    integer, a balance that stays in the 32-bit range, distinct
    identifiers and the connection up, after [processMessage] the
    customer's row has the old balance plus n and a new update time, and
    every other row is unchanged. *)
Theorem processMessage_credits_the_customer :
  forall (json_Unmarshal : list Z -> option listener.OrderCreatedEvent)
         (overflow : listener.float64 -> Z) (value : list Z)
         (event : listener.OrderCreatedEvent) (customerID : string) (n : Z)
         (w : World) (c : Customer),
    json_Unmarshal value = Some event ->
    listener.EventType event = "OrderCreated"%string ->
    listener.CustomerID (listener.Payload event) = Some customerID ->
    award (listener.TotalAmount (listener.Payload event)) = Some n ->
    1 <= n <= MaxInt32 ->
    uuid.Parse customerID = Some (ID c) ->
    NoDup (map ID (customers w)) ->
    In c (customers w) ->
    in_int32 (LoyaltyPoints c + n) = true ->
    connected 2 w ->
    Forall2 (fun old new =>
               if has_id (ID c) old
               then new = {| ID := ID old; MerchantID := MerchantID old;
                             Name := Name old; Phone := Phone old;
                             Email := Email old; Address := Address old;
                             LoyaltyPoints := LoyaltyPoints old + n;
                             CreatedAt := CreatedAt old;
                             UpdatedAt := hd 0 (clock w) |}
               else new = old)
            (customers w)
            (customers (listener.CustomerListener.processMessage uc json_Unmarshal
                          overflow value w)).
Proof.
  intros json_Unmarshal overflow value event customerID n w c
         Hdecode Htype Hcust Haward Hn Hparse Hnd Hin Hrange Hconn.
  pose proof (connected_hd _ _ Hconn) as H1.
  pose proof (connected_hd_tl _ _ Hconn) as H2.
  assert (Hnonempty : String.eqb customerID "" = false).
  { destruct (String.eqb_spec customerID "") as [He|]; [|reflexivity].
    subst customerID. vm_compute in Hparse. discriminate Hparse. }
  unfold listener.CustomerListener.processMessage.
  rewrite Hdecode, Htype, Hcust, Hnonempty.
  change (negb (String.eqb "OrderCreated" "OrderCreated")) with false.
  cbv iota zeta.
  unfold award in Haward. unfold listener.int32_of_float64. rewrite Haward.
  assert (Hin32 : in_int32 n = true).
  { unfold in_int32, MinInt32, MaxInt32 in *.
    apply andb_true_iff. split; apply Z.leb_le; lia. }
  rewrite Hin32.
  assert (Hpos : (0 <? n) = true) by (apply Z.ltb_lt; lia).
  rewrite Hpos.
  unfold uc. simpl.
  unfold usecase.customerUseCase.AddLoyaltyPoints. rewrite Hparse.
  to_statements. rewrite H1. simpl.
  assert (Hall : forallb
                   (fun r => negb (has_id (ID c) r) || in_int32 (LoyaltyPoints r + n))
                   (customers w) = true).
  { apply forallb_forall. intros r Hr. unfold has_id.
    destruct (uuid.eqb (ID r) (ID c)) eqn:E; [|reflexivity].
    apply uuid_eqb_eq in E.
    assert (r = c) by (apply (NoDup_ID_inj (customers w)); assumption).
    subst r. exact Hrange. }
  rewrite Hall. simpl. rewrite H2. simpl.
  match goal with
  | |- context [find ?p ?l] => destruct (find p l)
  end; simpl; apply Forall2_map_same; intros r;
    destruct (has_id (ID c) r); reflexivity.
Qed.

Lemma processMessage_credits_the_customer_witness :
  map LoyaltyPoints
    (customers (listener.CustomerListener.processMessage uc
                  (fun _ => Some (order "OrderCreated" (Some alice_id) 25))
                  amd64 [] shop))
  = [2; 0].
Proof.
  pose proof (processMessage_credits_the_customer
                (fun _ => Some (order "OrderCreated" (Some alice_id) 25))
                amd64 [] (order "OrderCreated" (Some alice_id) 25) alice_id 2
                shop (nth 0 (customers shop) bob)
                eq_refl eq_refl eq_refl eq_refl) as H.
  assert (Hrows : Forall2 (fun old new =>
            if has_id (ID (nth 0 (customers shop) bob)) old
            then new = {| ID := ID old; MerchantID := MerchantID old;
                          Name := Name old; Phone := Phone old;
                          Email := Email old; Address := Address old;
                          LoyaltyPoints := LoyaltyPoints old + 2;
                          CreatedAt := CreatedAt old;
                          UpdatedAt := hd 0 (clock shop) |}
            else new = old)
          (customers shop)
          (customers (listener.CustomerListener.processMessage uc
                        (fun _ => Some (order "OrderCreated" (Some alice_id) 25))
                        amd64 [] shop))).
  { apply H.
    - unfold MaxInt32. lia.
    - reflexivity.
    - simpl. repeat constructor; simpl; intuition discriminate.
    - left. reflexivity.
    - reflexivity.
    - reflexivity. }
  reflexivity.
Defined.

(** X16. An eligible event whose customer identifier is not well-formed, or
    matches no stored customer, is dropped: [processMessage] returns with
    the table as it was. *)
Theorem processMessage_drops_unknown_customers :
  forall (json_Unmarshal : list Z -> option listener.OrderCreatedEvent)
         (overflow : listener.float64 -> Z) (value : list Z)
         (event : listener.OrderCreatedEvent) (customerID : string) (w : World),
    json_Unmarshal value = Some event ->
    listener.CustomerID (listener.Payload event) = Some customerID ->
    match uuid.Parse customerID with
    | Some uid => forall r, In r (customers w) -> ID r <> uid
    | None => True
    end ->
    customers (listener.CustomerListener.processMessage uc json_Unmarshal
                 overflow value w)
    = customers w.
Proof.
  intros json_Unmarshal overflow value event customerID w Hdecode Hcust Hunknown.
  unfold listener.CustomerListener.processMessage.
  rewrite Hdecode, Hcust.
  destruct (negb (String.eqb (listener.EventType event) "OrderCreated"));
    [reflexivity|].
  destruct (String.eqb customerID ""); [reflexivity|].
  match goal with
  | |- context [0 <? ?p] => destruct (0 <? p)
  end; [|reflexivity].
  unfold uc. simpl. unfold usecase.customerUseCase.AddLoyaltyPoints.
  destruct (uuid.Parse customerID) as [uid|]; [|reflexivity].
  to_statements.
  destruct (hd false (link w)); simpl; [reflexivity|].
  rewrite (forallb_absent uid _ _ Hunknown). simpl.
  rewrite (map_absent uid _ _ Hunknown).
  destruct (hd false (tl (link w))); simpl; [reflexivity|].
  rewrite (find_absent uid _ Hunknown). reflexivity.
Qed.

Lemma processMessage_drops_unknown_customers_witness :
  customers (listener.CustomerListener.processMessage uc
               (fun _ => Some (order "OrderCreated" (Some "walk-in"%string) 250))
               amd64 [] shop)
  = customers shop
  /\ customers (listener.CustomerListener.processMessage uc
                  (fun _ => Some (order "OrderCreated"
                                    (Some "99999999-9999-4999-8999-999999999999"%string)
                                    250))
                  amd64 [] shop)
     = customers shop.
Proof.
  split.
  - apply (processMessage_drops_unknown_customers _ amd64 []
             (order "OrderCreated" (Some "walk-in"%string) 250) "walk-in");
      reflexivity || exact I.
  - apply (processMessage_drops_unknown_customers _ amd64 []
             (order "OrderCreated"
                (Some "99999999-9999-4999-8999-999999999999"%string) 250)
             "99999999-9999-4999-8999-999999999999"); try reflexivity.
    intros r Hr. simpl in Hr.
    destruct Hr as [Hr|[Hr|[]]]; subst r; simpl; discriminate.
Defined.

(** ** Identifiers as text *)

Lemma byte_cases :
  forall (check : Z -> bool),
    forallb check (map Z.of_nat (seq 0 256)) = true ->
    forall b, 0 <= b < 256 -> check b = true.
Proof.
  intros check Hall b Hb. rewrite forallb_forall in Hall. apply Hall.
  apply in_map_iff. exists (Z.to_nat b). split; [lia|]. apply in_seq. lia.
Qed.

Lemma xtob_hex :
  forall b, 0 <= b < 256 ->
    uuid.xtob (uuid.hexdigit (Z.shiftr b 4)) (uuid.hexdigit (Z.land b 15)) = Some b.
Proof.
  intros b Hb.
  pose proof (byte_cases
                (fun b => match uuid.xtob (uuid.hexdigit (Z.shiftr b 4))
                                          (uuid.hexdigit (Z.land b 15)) with
                          | Some v => v =? b
                          | None => false
                          end) eq_refl b Hb) as H.
  simpl in H.
  destruct (uuid.xtob (uuid.hexdigit (Z.shiftr b 4)) (uuid.hexdigit (Z.land b 15)));
    [|discriminate H].
  apply Z.eqb_eq in H. congruence.
Qed.

Lemma Parse_String :
  forall u, well_formed u -> uuid.Parse (uuid.String u) = Some u.
Proof.
  intros u [Hlen Hbytes].
  do 16 (destruct u as [|? u]; [discriminate Hlen|]).
  destruct u; [|discriminate Hlen].
  repeat match goal with
         | H : Forall _ (_ :: _) |- _ => inversion H; clear H; subst
         end.
  unfold uuid.String, uuid.Parse.
  rewrite list_ascii_of_string_of_list_ascii.
  cbn -[uuid.xtob uuid.hexdigit Z.shiftr Z.land].
  rewrite !xtob_hex by assumption. reflexivity.
Qed.

Lemma World_uuid_New_well_formed :
  forall w, well_formed (fst (World_uuid_New w)).
Proof.
  intros w. unfold World_uuid_New, uuid.set_v4. simpl fst.
  split; [reflexivity|].
  assert (Hmod : forall x, 0 <= x mod 256 < 256)
    by (intros x; apply Z.mod_pos_bound; lia).
  assert (H6 : forall y, 0 <= y < 256 -> 0 <= Z.lor (Z.land y 15) 64 < 256).
  { intros y Hy.
    pose proof (byte_cases
                  (fun y => (0 <=? Z.lor (Z.land y 15) 64)
                            && (Z.lor (Z.land y 15) 64 <? 256)) eq_refl y Hy) as H.
    simpl in H. apply andb_true_iff in H. destruct H as [Ha Hb].
    apply Z.leb_le in Ha. apply Z.ltb_lt in Hb. lia. }
  assert (H8 : forall y, 0 <= y < 256 -> 0 <= Z.lor (Z.land y 63) 128 < 256).
  { intros y Hy.
    pose proof (byte_cases
                  (fun y => (0 <=? Z.lor (Z.land y 63) 128)
                            && (Z.lor (Z.land y 63) 128 <? 256)) eq_refl y Hy) as H.
    simpl in H. apply andb_true_iff in H. destruct H as [Ha Hb].
    apply Z.leb_le in Ha. apply Z.ltb_lt in Hb. lia. }
  simpl. repeat (apply Forall_cons || apply Forall_nil);
    try apply Hmod; try (apply H6; apply Hmod); apply H8; apply Hmod.
Qed.

(** ** The handlers for creation and listing *)

Lemma find_appended :
  forall rows row,
    ~ In (ID row) (map ID rows) ->
    find (has_id (ID row)) (rows ++ [row]) = Some row.
Proof.
  intros rows row Hnew. induction rows as [|r rows IH]; simpl.
  - unfold has_id. rewrite uuid_eqb_refl. reflexivity.
  - unfold has_id at 1. destruct (uuid.eqb (ID r) (ID row)) eqn:E.
    + apply uuid_eqb_eq in E. exfalso. apply Hnew. left. exact E.
    + apply IH. intros Hin. apply Hnew. right. exact Hin.
Qed.

Lemma handler_CreateCustomer_inserts :
  forall (ctx : handler.Context) (name phone email address : string)
         (w w' : World) (id : string),
    handler.CustomerHandler.CreateCustomer uc ctx name phone email address w
    = (inl id, w') ->
    exists row,
      customers w' = customers w ++ [row]
      /\ uuid.Parse (handler.GetMerchantID ctx) = Some (MerchantID row)
      /\ ~ In (ID row) (map ID (customers w))
      /\ ID row <> uuid.Nil
      /\ LoyaltyPoints row = 0
      /\ Address row = address
      /\ sql.varchar 255 name = Some (Name row)
      /\ sql.varchar 20 phone = Some (Phone row)
      /\ sql.varchar 255 email = Some (Email row)
      /\ id = uuid.String (ID row)
      /\ uuid.Parse id = Some (ID row).
Proof.
  intros ctx name phone email address w w' id.
  unfold handler.CustomerHandler.CreateCustomer.
  destruct (String.eqb (handler.GetMerchantID ctx) ""); [discriminate|].
  destruct (uuid.Parse (handler.GetMerchantID ctx)) as [mid|]; [|discriminate].
  unfold uc. simpl.
  unfold usecase.customerUseCase.CreateCustomer, bind, lift, ret.
  rewrite uuid_eqb_refl. simpl.
  unfold pgRepository.Create, bind, roundtrip. simpl.
  destruct (hd false (link w)); simpl; [discriminate|].
  match goal with
  | |- context [as_row ?x] => destruct (as_row x) as [row|] eqn:Hrow
  end; simpl; [|discriminate].
  destruct (existsb (has_id (ID row)) (customers w)) eqn:Hid; simpl; [discriminate|].
  destruct (existsb (sql.same_key row) (customers w)); simpl; [discriminate|].
  intros H. injection H as Hid' Hw. subst id w'. simpl.
  apply as_row_columns in Hrow. simpl in Hrow.
  destruct Hrow as (Hrid & Hm & Hlp & _ & _ & Ha & Hn & Hp & He).
  assert (Hwf : well_formed (ID row))
    by (rewrite Hrid; apply (World_uuid_New_well_formed w)).
  exists row. repeat split; try assumption.
  + rewrite Hm. reflexivity.
  + intros Hin. apply existsb_has_id_iff in Hin. congruence.
  + rewrite Hrid.
    exact (set_v4_not_Nil (fun i => nth i (entropy w) 0 mod 256)).
  + rewrite Hrid. reflexivity.
  + rewrite <- Hrid. apply Parse_String. exact Hwf.
Qed.

(** X17. What the creation handler does with a request. A context without a
    merchant, or with one that is not a well-formed identifier, is
    answered Unauthenticated before anything is touched. A successful
    call has appended exactly one row: for the merchant of the context,
    under a fresh identifier that was not in use, with a balance of zero,
    with the address of the request and its name, phone and email as the
    columns take them; the response is that identifier in its canonical
    text, which parses back to it. *)
Theorem handler_CreateCustomer_outcomes :
  forall (ctx : handler.Context) (name phone email address : string) (w : World),
    let reply :=
      handler.CustomerHandler.CreateCustomer uc ctx name phone email address w in
    (handler.GetMerchantID ctx = ""%string ->
     reply = (inr (handler.status_Error handler.Unauthenticated
                     "merchant id not found in context"), w))
    /\ (handler.GetMerchantID ctx <> ""%string ->
        uuid.Parse (handler.GetMerchantID ctx) = None ->
        reply = (inr (handler.status_Error handler.Unauthenticated
                        "invalid merchant id format"), w))
    /\ (forall id w',
           reply = (inl id, w') ->
           exists row,
             customers w' = customers w ++ [row]
             /\ uuid.Parse (handler.GetMerchantID ctx) = Some (MerchantID row)
             /\ ~ In (ID row) (map ID (customers w))
             /\ ID row <> uuid.Nil
             /\ LoyaltyPoints row = 0
             /\ Address row = address
             /\ sql.varchar 255 name = Some (Name row)
             /\ sql.varchar 20 phone = Some (Phone row)
             /\ sql.varchar 255 email = Some (Email row)
             /\ id = uuid.String (ID row)
             /\ uuid.Parse id = Some (ID row)).
Proof.
  intros ctx name phone email address w reply. subst reply.
  unfold handler.CustomerHandler.CreateCustomer.
  split; [|split].
  - intros Hempty. rewrite Hempty. reflexivity.
  - intros Hne Hbad.
    destruct (String.eqb_spec (handler.GetMerchantID ctx) ""); [contradiction|].
    rewrite Hbad. reflexivity.
  - intros id w' H.
    exact (handler_CreateCustomer_inserts ctx name phone email address w w' id H).
Qed.

Lemma handler_CreateCustomer_outcomes_witness :
  exists w',
    handler.CustomerHandler.CreateCustomer uc as_merchant_a
      "Alice" "0811000111" "alice@example.com" "Jl. Merdeka 1" fresh
    = (inl alice_id, w')
    /\ map MerchantID (customers w') = [merchant_a].
Proof.
  destruct (handler.CustomerHandler.CreateCustomer uc as_merchant_a
              "Alice" "0811000111" "alice@example.com" "Jl. Merdeka 1" fresh)
    as [[id|e] w'] eqn:E; [|vm_compute in E; discriminate E].
  destruct (handler_CreateCustomer_outcomes as_merchant_a
              "Alice" "0811000111" "alice@example.com" "Jl. Merdeka 1" fresh)
    as (_ & _ & Hok).
  destruct (Hok id w' E) as (row & Hrows & Hm & _).
  exists w'. split.
  - unfold alice_id. vm_compute in E. congruence.
  - rewrite Hrows. simpl. f_equal.
    vm_compute in Hm. injection Hm as Hm. symmetry. exact Hm.
Defined.

(** X18. The identifier a creation returns finds the customer: after a
    successful creation through the handler, a lookup through the handler
    with the identifier of the response (the connection being up, from
    any caller) returns the record just stored - the same identifier, the
    merchant of the creating context in canonical text, a balance of
    zero, the address of the request and its name, phone and email as the
    columns took them - and changes nothing. *)
Theorem created_customer_is_found_by_its_id :
  forall (ctx ctx' : handler.Context) (name phone email address : string)
         (w w' : World) (id : string),
    handler.CustomerHandler.CreateCustomer uc ctx name phone email address w
    = (inl id, w') ->
    connected 1 w' ->
    exists c w'',
      handler.CustomerHandler.GetCustomer uc ctx' id w' = (Ok c, w'')
      /\ customers w'' = customers w'
      /\ handler.customerv1.Id c = id
      /\ (exists mid, uuid.Parse (handler.GetMerchantID ctx) = Some mid
                      /\ handler.customerv1.MerchantId c = uuid.String mid)
      /\ handler.customerv1.LoyaltyPoints c = 0
      /\ handler.customerv1.Address c = address
      /\ sql.varchar 255 name = Some (handler.customerv1.Name c)
      /\ sql.varchar 20 phone = Some (handler.customerv1.Phone c)
      /\ sql.varchar 255 email = Some (handler.customerv1.Email c).
Proof.
  intros ctx ctx' name phone email address w w' id Hcreate Hconn.
  destruct (handler_CreateCustomer_inserts _ _ _ _ _ _ _ _ Hcreate)
    as (row & Hrows & Hm & Hnew & _ & Hlp & Ha & Hn & Hp & He & Hid & Hparse).
  pose proof (connected_hd _ _ Hconn) as H1.
  unfold handler.CustomerHandler.GetCustomer, uc, bind. simpl.
  unfold usecase.customerUseCase.GetCustomer. rewrite Hparse.
  to_statements. rewrite H1. simpl.
  rewrite Hrows, (find_appended _ row Hnew). simpl.
  eexists. eexists. split; [reflexivity|]. simpl.
  repeat split; try assumption.
  - symmetry. exact Hid.
  - exists (MerchantID row). split; [exact Hm | reflexivity].
Qed.

Lemma created_customer_is_found_by_its_id_witness :
  exists c w'',
    handler.CustomerHandler.GetCustomer uc
      {| handler.GetMerchantID := uuid.String merchant_b |} alice_id shop_a
    = (Ok c, w'')
    /\ handler.customerv1.Name c = "Alice"%string
    /\ handler.customerv1.MerchantId c = "a1000000-0000-4000-8000-000000000001"%string.
Proof.
  destruct (created_customer_is_found_by_its_id as_merchant_a
              {| handler.GetMerchantID := uuid.String merchant_b |}
              "Alice" "0811000111" "alice@example.com" "Jl. Merdeka 1"
              fresh shop_a alice_id eq_refl eq_refl)
    as (c & w'' & H & _ & _ & (mid & Hmid & Hm) & _ & _ & Hn & _).
  exists c, w''. split; [exact H|]. split.
  - vm_compute in Hn. injection Hn as Hn. symmetry. exact Hn.
  - rewrite Hm. vm_compute in Hmid. injection Hmid as Hmid. subst mid. reflexivity.
Defined.

(** ** Listing through the handler *)

Lemma wrap_64_int32 :
  forall z, MinInt32 <= z <= MaxInt32 -> - MaxInt64 - 1 <= z <= MaxInt64.
Proof. intros z. unfold MinInt32, MaxInt32, MaxInt64. lia. Qed.

(** X19. The listing handler keeps a caller within its own merchant and never
    sends the store an invalid page. For a context whose merchant is a
    well-formed identifier and any 32-bit page and page size (the
    connection being up) the call succeeds; every customer in the
    response carries the merchant of the context; there are at most
    page_size of them, 10 when the page size given is below 1; and the
    total is the number of the merchant's records the search selects,
    as a 32-bit integer. *)
Theorem handler_ListCustomers_is_scoped :
  forall (ctx : handler.Context) (mid : uuid.UUID) (page pageSize : Z)
         (search : string) (w : World),
    uuid.Parse (handler.GetMerchantID ctx) = Some mid ->
    in_int32 page = true ->
    in_int32 pageSize = true ->
    connected 2 w ->
    exists cs w',
      handler.CustomerHandler.ListCustomers uc ctx page pageSize search w
      = (inl (cs, wrap 32 (Z.of_nat (length (filter (pgRepository.selected mid search)
                                               (customers w))))), w')
      /\ customers w' = customers w
      /\ Forall (fun c => handler.customerv1.MerchantId c = uuid.String mid) cs
      /\ Z.of_nat (length cs) <= (if pageSize <? 1 then 10 else pageSize).
Proof.
  intros ctx mid page pageSize search w Hparse Hpage Hsize Hconn.
  unfold in_int32 in Hpage, Hsize.
  apply andb_true_iff in Hpage. destruct Hpage as [Hp1 Hp2].
  apply andb_true_iff in Hsize. destruct Hsize as [Hs1 Hs2].
  apply Z.leb_le in Hp1, Hp2, Hs1, Hs2.
  unfold MinInt32, MaxInt32 in *.
  assert (Hne : String.eqb (handler.GetMerchantID ctx) "" = false).
  { destruct (String.eqb_spec (handler.GetMerchantID ctx) "") as [He|]; [|reflexivity].
    rewrite He in Hparse. vm_compute in Hparse. discriminate Hparse. }
  unfold handler.CustomerHandler.ListCustomers. rewrite Hne.
  unfold uc. simpl. unfold usecase.customerUseCase.ListCustomers. rewrite Hparse.
  set (page' := if page <? 1 then 1 else page).
  set (pageSize' := if pageSize <? 1 then 10 else pageSize).
  assert (Hpage' : 1 <= page' <= 2147483647).
  { subst page'. destruct (Z.ltb_spec page 1); lia. }
  assert (Hsize' : 1 <= pageSize' <= 2147483647).
  { subst pageSize'. destruct (Z.ltb_spec pageSize 1); lia. }
  unfold pg, NewPGRepository. simpl.
  rewrite (pg_List_page mid page' pageSize' search w);
    try (unfold MaxInt64; lia); try (unfold MaxInt64; nia); [|exact Hconn].
  eexists. eexists. split; [reflexivity|]. simpl. split; [reflexivity|]. split.
  - apply Forall_forall. intros c Hc. apply in_map_iff in Hc.
    destruct Hc as (r & Hr & Hin). subst c. simpl. f_equal.
    apply In_page in Hin.
    apply (Permutation_in _ (order_by_Permutation _)) in Hin.
    apply filter_In in Hin. destruct Hin as [_ Hsel].
    unfold pgRepository.selected in Hsel. apply andb_true_iff in Hsel.
    apply uuid_eqb_eq. apply Hsel.
  - rewrite length_map, length_firstn. lia.
Qed.

Lemma handler_ListCustomers_is_scoped_witness :
  exists cs w',
    handler.CustomerHandler.ListCustomers uc as_merchant_a 0 0 "" shop
    = (inl (cs, 1), w')
    /\ map handler.customerv1.Name cs = ["Alice"%string].
Proof.
  destruct (handler_ListCustomers_is_scoped as_merchant_a merchant_a 0 0 "" shop
              eq_refl eq_refl eq_refl eq_refl)
    as (cs & w' & H & _).
  exists cs, w'. split; [exact H|].
  vm_compute in H. injection H as Hcs _. subst cs. reflexivity.
Defined.

(** ** Paging through a listing *)




(** ** Updating a customer that is not there *)

(** X11. A profile update for an identifier no stored customer has (the
    connection being up) answers "customer not found" after the lookup
    alone: no UPDATE is sent, the clock is not read, the table is as
    before. *)
Theorem UpdateCustomer_unknown_customer :
  forall (input : Customer) (w : World),
    (forall r, In r (customers w) -> ID r <> ID input) ->
    connected 1 w ->
    usecase.customerUseCase.UpdateCustomer runtime pg input w
    = (Err (errors_New "customer not found"), unplug (tl (link w)) w).
Proof.
  intros input w Habs Hconn.
  pose proof (connected_hd _ _ Hconn) as H1.
  unfold usecase.customerUseCase.UpdateCustomer, bind, lift, ret.
  to_statements. rewrite H1. simpl.
  rewrite (find_absent _ _ Habs). reflexivity.
Qed.

Lemma UpdateCustomer_unknown_customer_witness :
  usecase.customerUseCase.UpdateCustomer runtime pg alice fresh
  = (Err (errors_New "customer not found"), unplug [] fresh).
Proof.
  apply (UpdateCustomer_unknown_customer alice fresh).
  - intros r [].
  - reflexivity.
Defined.
